(** * image_accessibility_tool: the describe-image route and its client

    A shallow embedding of [src/app/api/describe-image/route.ts] (the
    server-side request handler) and of the state handling of
    [src/app/page.tsx] (the upload page), with the properties that the
    specification states about them. *)

From Stdlib Require Import ZArith Lia List String Ascii Bool.
From stdpp Require Import base option list gmap.
Import ListNotations.

Local Open Scope Z_scope.

(** ** JavaScript strings

    A JavaScript string is a sequence of UTF-16 code units; [length],
    [slice], [startsWith] and [trim] all count code units. *)
Module JS.

Definition jsstring := list Z.

(** A code unit is a 16-bit value. *)
Definition code_unit (c : Z) : Prop := 0 <= c < 65536.
Definition wf (s : jsstring) : Prop := Forall code_unit s.

(** String literals of the source, as code units. *)
Definition lit (s : string) : jsstring :=
  map (fun a => Z.of_N (N_of_ascii a)) (list_ascii_of_string s).

(** [s.startsWith(p)] *)
Fixpoint startsWith (s p : jsstring) {struct p} : bool :=
  match p with
  | [] => true
  | c :: p' =>
      match s with
      | [] => false
      | d :: s' => (c =? d) && startsWith s' p'
      end
  end.

(** WhiteSpace and LineTerminator code points of ECMA-262, the set that
    [String.prototype.trim] strips. *)
Definition is_whitespace (c : Z) : bool :=
  (c =? 9) || (c =? 10) || (c =? 11) || (c =? 12) || (c =? 13) ||
  (c =? 32) || (c =? 160) || (c =? 5760) ||
  ((8192 <=? c) && (c <=? 8202)) ||
  (c =? 8232) || (c =? 8233) || (c =? 8239) || (c =? 8287) ||
  (c =? 12288) || (c =? 65279).

Fixpoint trimStart (s : jsstring) : jsstring :=
  match s with
  | [] => []
  | c :: s' => if is_whitespace c then trimStart s' else s
  end.

Definition trimEnd (s : jsstring) : jsstring := rev (trimStart (rev s)).

(** [s.trim()] *)
Definition trim (s : jsstring) : jsstring := trimEnd (trimStart s).

(** [s.slice(0, n)] for a non-negative [n]. *)
Definition slice0 (n : nat) (s : jsstring) : jsstring := take n s.

(** Truthiness of a string: only the empty string is falsy. *)
Definition truthy (s : jsstring) : bool :=
  match s with [] => false | _ => true end.

(** [a || b] on strings. *)
Definition or_else (a b : jsstring) : jsstring := if truthy a then a else b.

(** [xs.join(sep)] *)
Fixpoint join (sep : jsstring) (xs : list jsstring) : jsstring :=
  match xs with
  | [] => []
  | [x] => x
  | x :: rest => x ++ sep ++ join sep rest
  end.

(** [t] is [s] trimmed of whitespace: [s] is [t] between two runs of
    whitespace, and [t] neither starts nor ends with whitespace. *)
Definition trimmed (s t : jsstring) : Prop :=
  exists l r,
    s = l ++ t ++ r
    /\ Forall (fun c => is_whitespace c = true) l
    /\ Forall (fun c => is_whitespace c = true) r
    /\ (forall c rest, t = c :: rest -> is_whitespace c = false)
    /\ (forall front c, t = front ++ [c] -> is_whitespace c = false).

End JS.

(** ** Percent-encoding

    [encodeURIComponent] (used by the route for the description header) and
    [decodeURIComponent] (used by the page to read it back), after the
    Encode and Decode operations of ECMA-262. *)
Module URI.
Import JS.

Definition in_range (lo hi c : Z) : bool := (lo <=? c) && (c <=? hi).

(** uriUnescaped: letters, digits and the marks [- _ . ! ~ * ' ( )]. *)
Definition unescaped (c : Z) : bool :=
  in_range 65 90 c || in_range 97 122 c || in_range 48 57 c ||
  (c =? 45) || (c =? 95) || (c =? 46) || (c =? 33) || (c =? 126) ||
  (c =? 42) || (c =? 39) || (c =? 40) || (c =? 41).

Definition is_lead (c : Z) : bool := in_range 55296 56319 c.
Definition is_trail (c : Z) : bool := in_range 56320 57343 c.

(** The code point of a surrogate pair. *)
Definition pair_code_point (hi lo : Z) : Z :=
  (hi - 55296) * 1024 + (lo - 56320) + 65536.

(** UTF-8 octets of a code point. *)
Definition utf8 (cp : Z) : list Z :=
  if cp <? 128 then [cp]
  else if cp <? 2048 then [192 + cp / 64; 128 + cp mod 64]
  else if cp <? 65536 then
    [224 + cp / 4096; 128 + (cp / 64) mod 64; 128 + cp mod 64]
  else [240 + cp / 262144; 128 + (cp / 4096) mod 64;
        128 + (cp / 64) mod 64; 128 + cp mod 64].

(** UTF16EncodeCodePoint *)
Definition utf16 (cp : Z) : jsstring :=
  if cp <? 65536 then [cp]
  else [55296 + (cp - 65536) / 1024; 56320 + (cp - 65536) mod 1024].

Definition hex_digit (n : Z) : Z := if n <? 10 then 48 + n else 55 + n.

(** An octet as [%XY] with upper-case hexadecimal digits. *)
Definition escape_octet (b : Z) : jsstring :=
  [37; hex_digit (b / 16); hex_digit (b mod 16)].

Definition escape_octets (bs : list Z) : jsstring :=
  concat (map escape_octet bs).

(** [encodeURIComponent(s)]; [None] is the URIError thrown at an unpaired
    surrogate. *)
Fixpoint encodeURIComponent (s : jsstring) : option jsstring :=
  match s with
  | [] => Some []
  | c :: rest =>
      if unescaped c then cons c <$> encodeURIComponent rest
      else if is_lead c then
        match rest with
        | d :: rest' =>
            if is_trail d
            then app (escape_octets (utf8 (pair_code_point c d)))
                   <$> encodeURIComponent rest'
            else None
        | [] => None
        end
      else if is_trail c then None
      else app (escape_octets (utf8 c)) <$> encodeURIComponent rest
  end.

(** ParseHexOctet accepts digits of either case. *)
Definition hex_value (c : Z) : option Z :=
  if in_range 48 57 c then Some (c - 48)
  else if in_range 65 70 c then Some (c - 55)
  else if in_range 97 102 c then Some (c - 87)
  else None.

(** Decoding reads the string into literal code units and escaped octets,
    then turns runs of octets back into code points. *)
Inductive token := Lit (c : Z) | Oct (b : Z).

Fixpoint unescape (s : jsstring) : option (list token) :=
  match s with
  | [] => Some []
  | c :: rest =>
      if c =? 37 then
        match rest with
        | h1 :: h2 :: rest' =>
            match hex_value h1, hex_value h2 with
            | Some a, Some b => cons (Oct (16 * a + b)) <$> unescape rest'
            | _, _ => None
            end
        | _ => None
        end
      else cons (Lit c) <$> unescape rest
  end.

Definition continuation (b : Z) : bool := in_range 128 191 b.

Definition is_oct (t : token) : option Z :=
  match t with Oct b => Some b | Lit _ => None end.

(** A valid two-, three- or four-octet sequence and its code point. *)
Definition decode2 (b b1 : Z) : option Z :=
  let v := (b - 192) * 64 + (b1 - 128) in
  if continuation b1 && (128 <=? v) then Some v else None.

Definition decode3 (b b1 b2 : Z) : option Z :=
  let v := (b - 224) * 4096 + (b1 - 128) * 64 + (b2 - 128) in
  if continuation b1 && continuation b2 && (2048 <=? v)
     && negb (in_range 55296 57343 v)
  then Some v else None.

Definition decode4 (b b1 b2 b3 : Z) : option Z :=
  let v := (b - 240) * 262144 + (b1 - 128) * 4096 + (b2 - 128) * 64
           + (b3 - 128) in
  if continuation b1 && continuation b2 && continuation b3
     && in_range 65536 1114111 v
  then Some v else None.

Fixpoint decode_tokens (ts : list token) : option jsstring :=
  match ts with
  | [] => Some []
  | Lit c :: r => cons c <$> decode_tokens r
  | Oct b :: r =>
      if b <? 128 then cons b <$> decode_tokens r
      else if b <? 192 then None
      else if b <? 224 then
        match r with
        | Oct b1 :: r' =>
            match decode2 b b1 with
            | Some v => app (utf16 v) <$> decode_tokens r'
            | None => None
            end
        | _ => None
        end
      else if b <? 240 then
        match r with
        | Oct b1 :: Oct b2 :: r' =>
            match decode3 b b1 b2 with
            | Some v => app (utf16 v) <$> decode_tokens r'
            | None => None
            end
        | _ => None
        end
      else if b <? 248 then
        match r with
        | Oct b1 :: Oct b2 :: Oct b3 :: r' =>
            match decode4 b b1 b2 b3 with
            | Some v => app (utf16 v) <$> decode_tokens r'
            | None => None
            end
        | _ => None
        end
      else None
  end.

(** [decodeURIComponent(s)]; [None] is the URIError thrown at a malformed
    escape or at octets that are not valid UTF-8. *)
Definition decodeURIComponent (s : jsstring) : option jsstring :=
  unescape s ≫= decode_tokens.

(** Visible ASCII: no control character, no space, nothing above 0x7E. *)
Definition header_safe (c : Z) : Prop := 32 < c < 127.

Definition octet (b : Z) : Prop := 0 <= b < 256.

(** Unicode scalar values: code points that are not surrogates. *)
Definition scalar (cp : Z) : Prop :=
  0 <= cp < 1114112 /\ ~ (55296 <= cp <= 57343).

End URI.

(** ** The Arcjet decision, as the handler inspects it

    [aj.protect] and the decision's predicates belong to the Arcjet SDK;
    the handler only reads the fields below. *)
Module Arcjet.

Inductive Conclusion := ALLOW | DENY | CHALLENGE | ERROR.

Inductive Reason :=
  | RATE_LIMIT | BOT | SHIELD | EMAIL | SENSITIVE_INFO | FILTER
  | ERROR_REASON | NO_REASON.

(** One rule's result; [spoofed_bot] is the verdict of [isSpoofedBot] on it. *)
Record RuleResult := {
  rule_conclusion : Conclusion;
  rule_reason : Reason;
  spoofed_bot : bool
}.

Record Decision := {
  conclusion : Conclusion;
  reason : Reason;
  ip_isHosting : bool;
  results : list RuleResult
}.

Definition isDenied (d : Decision) : bool :=
  match conclusion d with DENY => true | _ => false end.

Definition isRateLimit (r : Reason) : bool :=
  match r with RATE_LIMIT => true | _ => false end.

Definition isBot (r : Reason) : bool :=
  match r with BOT => true | _ => false end.

Definition isSpoofedBot (r : RuleResult) : bool := spoofed_bot r.

End Arcjet.

(** ** The route: [src/app/api/describe-image/route.ts] *)
Module Route.
Import JS URI Arcjet.

Definition MAX_FILE_SIZE_BYTES : Z := 10 * 1024 * 1024.

(** *** Effects

    An awaited call either returns or throws; the handler's calls to the
    outside are logged, in order. *)
Inductive Error := TypeError | SyntaxError | URIError | APIError | ArcjetError.

Inductive outcome (A : Type) := Returned (a : A) | Thrown (e : Error).
Arguments Returned {A} a.
Arguments Thrown {A} e.

Inductive event :=
  | Protect                         (* aj.protect(req, { requested: 1 }) *)
  | ReadFormData                    (* req.formData() *)
  | ReadJson                        (* req.json() *)
  | VisionCall (url : jsstring)     (* openai.chat.completions.create *)
  | SpeechCall (input : jsstring).  (* openai.audio.speech.create *)

Definition M (A : Type) : Type := list event * outcome A.

Definition ret {A} (a : A) : M A := ([], Returned a).
Definition throw {A} (e : Error) : M A := ([], Thrown e).
Definition call {A} (ev : event) (o : outcome A) : M A := ([ev], o).

Definition bind {A B} (m : M A) (k : A -> M B) : M B :=
  match m with
  | (t, Returned a) => let '(t', r) := k a in (t ++ t', r)
  | (t, Thrown e) => (t, Thrown e)
  end.

Definition try_catch {A} (m : M A) (handler : Error -> M A) : M A :=
  match m with
  | (t, Returned a) => (t, Returned a)
  | (t, Thrown e) => let '(t', r) := handler e in (t ++ t', r)
  end.

Notation "'let*' x ':=' m 'in' k" := (bind m (fun x => k))
  (at level 10, x pattern, m at level 100, k at level 200).

(** *** Request data *)
Record File := {
  file_name : jsstring;   (* file.name *)
  file_type : jsstring;   (* file.type *)
  file_bytes : list Z     (* the octets of file.arrayBuffer() *)
}.

(** [file.size] *)
Definition file_size (f : File) : Z := Z.of_nat (length (file_bytes f)).

Inductive FormDataEntryValue :=
  | EntryString (s : jsstring)
  | EntryFile (f : File).

Definition FormData := list (jsstring * FormDataEntryValue).

(** [formData.get(name)]: the first entry of that name, or null. *)
Fixpoint formData_get (name : jsstring) (fd : FormData)
  : option FormDataEntryValue :=
  match fd with
  | [] => None
  | (k, v) :: rest =>
      if decide (k = name) then Some v else formData_get name rest
  end.

#[local] Unset Elimination Schemes.
Inductive JSON :=
  | JNull
  | JBool (b : bool)
  | JNumber (n : Z)
  | JString (s : jsstring)
  | JArray (items : list JSON)
  | JObject (fields : list (jsstring * JSON)).
#[local] Set Elimination Schemes.

Fixpoint fields_get (name : jsstring) (fields : list (jsstring * JSON))
  : option JSON :=
  match fields with
  | [] => None
  | (k, v) :: rest => if decide (k = name) then Some v else fields_get name rest
  end.

(** [json?.name]: a property of an object; undefined on null, on a
    primitive and on an array. *)
Definition get_property (name : jsstring) (j : JSON) : option JSON :=
  match j with
  | JObject fields => fields_get name fields
  | _ => None
  end.

Record Request := {
  content_type : option jsstring;     (* req.headers.get("content-type") *)
  read_formData : outcome FormData;   (* what req.formData() does on the body *)
  read_json : outcome JSON            (* what req.json() does on the body *)
}.

(** [buffer.toString("base64")] *)
Definition base64_char (n : Z) : Z :=
  if n <? 26 then 65 + n
  else if n <? 52 then 97 + (n - 26)
  else if n <? 62 then 48 + (n - 52)
  else if n =? 62 then 43 else 47.

Fixpoint base64 (bytes : list Z) : jsstring :=
  match bytes with
  | [] => []
  | [a] => [base64_char (a / 4); base64_char ((a mod 4) * 16); 61; 61]
  | [a; b] =>
      [base64_char (a / 4); base64_char ((a mod 4) * 16 + b / 16);
       base64_char ((b mod 16) * 4); 61]
  | a :: b :: c :: rest =>
      [base64_char (a / 4); base64_char ((a mod 4) * 16 + b / 16);
       base64_char ((b mod 16) * 4 + c / 64); base64_char (c mod 64)]
      ++ base64 rest
  end.

(** *** Image extraction ([extractImageDataUrl], lines 48-77) *)
Definition extractImageDataUrl (req : Request) : M (option jsstring) :=
  let contentType := default [] (content_type req) in
  if startsWith contentType (lit "multipart/form-data") then
    let* formData := call ReadFormData (read_formData req) in
    match formData_get (lit "file") formData with
    | None => ret None
    | Some (EntryString _) => ret None
    | Some (EntryFile file) =>
        if negb (startsWith (file_type file) (lit "image/")) then ret None
        else if file_size file >? MAX_FILE_SIZE_BYTES then ret None
        else
          let buffer := file_bytes file in
          let mime := or_else (file_type file) (lit "image/png") in
          let b64 := base64 buffer in
          ret (Some (lit "data:" ++ mime ++ lit ";base64," ++ b64))
    end
  else
    try_catch
      (let* json := call ReadJson (read_json req) in
       match get_property (lit "imageBase64") json with
       | Some (JString imageBase64) =>
           if negb (startsWith imageBase64 (lit "data:image")) then ret None
           else ret (Some imageBase64)
       | _ => ret None
       end)
      (fun _ => ret None).

(** *** The model providers *)

(** A typed content part of a model reply; only some bear text. *)
Record Part := {
  part_type : jsstring;
  part_text : option jsstring   (* p?.text, when it is not null or undefined *)
}.

(** [visionRes.choices[0]?.message?.content] is a string, an array of parts,
    or neither (null, undefined). *)
Inductive Content :=
  | ContentString (s : jsstring)
  | ContentParts (parts : list Part)
  | ContentNone.

Record Choice := { message : option Content }.
Record VisionResponse := { choices : list Choice }.

Record SpeechResponse := { arrayBuffer : outcome (list Z) }.

(** Everything outside the handler that one request meets. *)
Record World := {
  protect : outcome Decision;   (* the Arcjet client resolves, also on failure *)
  request : Request;
  vision : jsstring -> outcome VisionResponse;
  speech : jsstring -> outcome SpeechResponse
}.

(** *** Responses *)
Inductive Body :=
  | JsonError (error : jsstring)    (* NextResponse.json({ error }) *)
  | Text (s : jsstring)
  | Bytes (b : list Z).

Record Response := {
  status : Z;
  headers : list (jsstring * jsstring);   (* the headers the handler sets *)
  body : Body
}.

Definition json_response (error : jsstring) (st : Z) : Response :=
  {| status := st; headers := []; body := JsonError error |}.

Definition text_response (s : jsstring) (st : Z) : Response :=
  {| status := st; headers := []; body := Text s |}.

(** *** The description (lines 141-150) *)
Definition rawContent (visionRes : VisionResponse) : Content :=
  match choices visionRes with
  | [] => ContentNone
  | c :: _ => default ContentNone (message c)
  end.

(** The reply as one string, before trimming. *)
Definition normalize (raw : Content) : jsstring :=
  match raw with
  | ContentString s => s
  | ContentParts parts =>
      join (lit " ") (map (fun p => default [] (part_text p)) parts)
  | ContentNone => []
  end.

Definition describe (raw : Content) : jsstring :=
  or_else (slice0 800 (trim (normalize raw))) (lit "No description available.").

(** [encodeURIComponent] throws a URIError where the model returns [None]. *)
Definition encode_header (s : jsstring) : M jsstring :=
  match encodeURIComponent s with
  | Some h => ret h
  | None => throw URIError
  end.

(** *** The handler ([POST], lines 82-176) *)

(** The body of its [try] block (lines 108-171). *)
Definition pipeline (w : World) : M Response :=
  let* imageDataUrl := extractImageDataUrl (request w) in
  match imageDataUrl with
  | None => ret (text_response (lit "Invalid or missing image data") 400)
  | Some url =>
      if negb (truthy url)
      then ret (text_response (lit "Invalid or missing image data") 400)
      else
        let* visionRes := call (VisionCall url) (vision w url) in
        let description := describe (rawContent visionRes) in
        let* ttsRes := call (SpeechCall description) (speech w description) in
        let* audioBuffer := (([], arrayBuffer ttsRes) : M (list Z)) in
        let* encoded := encode_header description in
        ret {| status := 200;
               headers :=
                 [(lit "Content-Type", lit "audio/mpeg");
                  (lit "Content-Disposition",
                   lit "attachment; filename=description.mp3");
                  (lit "Cache-Control", lit "no-store");
                  (lit "X-Description-Text", encoded)];
               body := Bytes audioBuffer |}
  end.

Definition POST (w : World) : M Response :=
  let* decision := call Protect (protect w) in
  if isDenied decision then
    if isRateLimit (reason decision)
    then ret (json_response (lit "Too Many Requests") 429)
    else if isBot (reason decision)
    then ret (json_response (lit "No bots allowed") 403)
    else ret (json_response (lit "Forbidden") 403)
  else if ip_isHosting decision
  then ret (json_response (lit "Forbidden") 403)
  else if existsb isSpoofedBot (results decision)
  then ret (json_response (lit "Forbidden") 403)
  else
    try_catch (pipeline w)
      (fun _ => ret (text_response (lit "Internal Server Error") 500)).

(** The inputs of the speech calls in a log, and a header of a response. *)
Definition speech_inputs (log : list event) : list jsstring :=
  omap (fun ev => match ev with SpeechCall d => Some d | _ => None end) log.

Definition vision_inputs (log : list event) : list jsstring :=
  omap (fun ev => match ev with VisionCall u => Some u | _ => None end) log.

Fixpoint header (name : jsstring) (hs : list (jsstring * jsstring))
  : option jsstring :=
  match hs with
  | [] => None
  | (k, v) :: rest => if decide (k = name) then Some v else header name rest
  end.

(** A request is turned away at admission when the decision is a denial,
    when its address is a hosting address, or when a rule result carries a
    spoofed-bot signature. *)
Definition turned_away (d : Decision) : bool :=
  isDenied d || ip_isHosting d || existsb isSpoofedBot (results d).

(** *** Fixed responses and sample data *)
Definition forbidden : Response := json_response (lit "Forbidden") 403.
Definition internal_error : Response :=
  text_response (lit "Internal Server Error") 500.
Definition invalid_image : Response :=
  text_response (lit "Invalid or missing image data") 400.


(** A multipart request with a small PNG, decisions, and a world in which
    both models answer. *)
Definition sample_file : File :=
  {| file_name := lit "dog.png"; file_type := lit "image/png";
     file_bytes := [137; 80; 78; 71] |}.

Definition sample_request : Request :=
  {| content_type := Some (lit "multipart/form-data; boundary=x");
     read_formData := Returned [(lit "file", EntryFile sample_file)];
     read_json := Thrown SyntaxError |}.

Definition allow : Decision :=
  {| conclusion := ALLOW; reason := NO_REASON; ip_isHosting := false;
     results := [] |}.

Definition deny (r : Reason) : Decision :=
  {| conclusion := DENY; reason := r; ip_isHosting := false;
     results := [ {| rule_conclusion := DENY; rule_reason := r;
                     spoofed_bot := false |} ] |}.

Definition sample_reply : VisionResponse :=
  {| choices :=
       [ {| message := Some (ContentString (lit "  A dog on a beach. ")) |} ] |}.

Definition sample_world (p : outcome Decision) (req : Request) : World :=
  {| protect := p; request := req;
     vision := fun _ => Returned sample_reply;
     speech := fun _ => Returned {| arrayBuffer := Returned [73; 68; 51] |} |}.

(** The statuses the handler answers with. *)
Definition handler_statuses : list Z := [200; 400; 403; 429; 500].

(** *** The accepted payloads, as the specification words them *)

(** The request declares multipart form data. *)
Definition multipart (req : Request) : bool :=
  startsWith (default [] (content_type req)) (lit "multipart/form-data").

(** (a) multipart form data whose [file] field holds a file with a
    declared image type and at most 10 MiB, as a data URL. *)
Definition multipart_image (req : Request) (url : jsstring) : Prop :=
  multipart req = true /\
  exists fd file,
    read_formData req = Returned fd
    /\ formData_get (lit "file") fd = Some (EntryFile file)
    /\ startsWith (file_type file) (lit "image/") = true
    /\ file_size file <= MAX_FILE_SIZE_BYTES
    /\ url = lit "data:" ++ file_type file ++ lit ";base64,"
             ++ base64 (file_bytes file).

(** (b) a JSON body with a string field [imageBase64] that starts with
    [data:image], passed through. *)
Definition json_image (req : Request) (url : jsstring) : Prop :=
  exists j,
    read_json req = Returned j
    /\ get_property (lit "imageBase64") j = Some (JString url)
    /\ startsWith url (lit "data:image") = true.

(** A request that declares multipart form data and carries a body that is
    not form data (here, a JSON body). *)
Definition mislabelled_request : Request :=
  {| content_type := Some (lit "multipart/form-data");
     read_formData := Thrown TypeError;
     read_json :=
       Returned (JObject [(lit "imageBase64",
                           JString (lit "data:image/png;base64,iVBORw=="))]) |}.

(** A request that declares multipart form data with an unreadable body. *)
Definition broken_multipart : Request :=
  {| content_type := Some (lit "multipart/form-data; boundary=x");
     read_formData := Thrown TypeError;
     read_json := Thrown SyntaxError |}.

(** *** The description, as the specification words it *)

(** "Concatenate the text-bearing parts with single-space separators". *)
Definition text_bearing_joined (parts : list Part) : jsstring :=
  join (lit " ") (omap part_text parts).

Definition fallback : jsstring := lit "No description available.".

(** Replies are JavaScript strings: sequences of 16-bit code units. *)
Definition content_wf (raw : Content) : Prop :=
  match raw with
  | ContentString s => wf s
  | ContentParts parts =>
      Forall (fun p => forall t, part_text p = Some t -> wf t) parts
  | ContentNone => True
  end.

Definition replies_wf (w : World) : Prop :=
  forall url r, vision w url = Returned r -> content_wf (rawContent r).

(** The headers of a successful response, with the description header. *)
Definition success_headers (encoded : jsstring) : list (jsstring * jsstring) :=
  [(lit "Content-Type", lit "audio/mpeg");
   (lit "Content-Disposition", lit "attachment; filename=description.mp3");
   (lit "Cache-Control", lit "no-store");
   (lit "X-Description-Text", encoded)].

(** A reply of typed parts with a refusal part, which has no [text],
    between two text parts. *)
Definition text_part (s : jsstring) : Part :=
  {| part_type := lit "text"; part_text := Some s |}.
Definition refusal_part : Part :=
  {| part_type := lit "refusal"; part_text := None |}.
Definition mixed_parts : list Part :=
  [text_part (lit "a"); refusal_part; text_part (lit "b")].

(** A reply whose 800th and 801st code units are one surrogate pair. *)
Definition split_pair_reply : VisionResponse :=
  {| choices :=
       [ {| message :=
              Some (ContentString (repeat 97 799 ++ [55357; 56374])) |} ] |}.

(** *** Further sample data *)

(** The successful response of the handler. *)
Definition success (encoded : jsstring) (audio : list Z) : Response :=
  {| status := 200; headers := success_headers encoded; body := Bytes audio |}.

(** A JSON request carrying the given value as [imageBase64]. *)
Definition json_request (image : jsstring) : Request :=
  {| content_type := Some (lit "application/json");
     read_formData := Thrown TypeError;
     read_json := Returned (JObject [(lit "imageBase64", JString image)]) |}.

(** A world in which the vision provider fails. *)
Definition vision_down : World :=
  {| protect := Returned allow; request := sample_request;
     vision := fun _ => Thrown APIError;
     speech := fun _ => Returned {| arrayBuffer := Returned [73; 68; 51] |} |}.

(** *** The reply's text, as the specification words it *)

(** The text of a part, the empty text when it has none. *)
Definition text_of (p : Part) : jsstring :=
  match part_text p with Some t => t | None => [] end.

(** The parts' texts with single-space separators, built the way
    [Array.prototype.join] is specified: the first text, then a space and
    the next text for every further part. *)
Definition spaced_texts (parts : list Part) : jsstring :=
  match parts with
  | [] => []
  | p :: rest => fold_left (fun acc q => acc ++ 32 :: text_of q) rest (text_of p)
  end.

(** The text of a reply: the content of the first choice's message, when
    it is a string; its parts' texts spaced, when it is a sequence of parts;
    the empty text when there is no choice, no message or no content. *)
Definition reply_text (r : VisionResponse) : jsstring :=
  match choices r with
  | [] => []
  | c :: _ =>
      match message c with
      | Some (ContentString s) => s
      | Some (ContentParts parts) => spaced_texts parts
      | Some ContentNone => []
      | None => []
      end
  end.

(** A reply of a thousand letters between spaces, as a response. *)
Definition long_response : VisionResponse :=
  {| choices :=
       [ {| message :=
              Some (ContentString ([32] ++ repeat 97 1000 ++ [32; 10])) |} ] |}.

End Route.

(** ** The page: state handling of [src/app/page.tsx] *)
Module Page.
Import JS URI.

Definition File := Route.File.
Definition file_name := Route.file_name.
Definition file_type := Route.file_type.
Definition file_size := Route.file_size.

Inductive Status := idle | uploading | processing | done | error.

Definition MAX_FILE_SIZE_MB : Z := 10.

(** Object URLs ([blob:...]) are opaque; the browser never hands out the
    same one twice. *)
Definition ObjectURL := positive.

Record State := {
  audioUrl : option ObjectURL;
  descriptionText : option jsstring;
  status : Status;
  errorMessage : option jsstring;
  audioObjectUrlRef : option ObjectURL;   (* audioObjectUrlRef.current *)
  input_files : list File;      (* the file input; its value is "" iff empty *)
  blob_urls : gset ObjectURL;   (* the browser's store: created, not revoked *)
  next_url : ObjectURL          (* the next URL createObjectURL returns *)
}.

Definition setAudioUrl (v : option ObjectURL) (st : State) : State :=
  {| audioUrl := v; descriptionText := descriptionText st;
     status := status st; errorMessage := errorMessage st;
     audioObjectUrlRef := audioObjectUrlRef st;
     input_files := input_files st; blob_urls := blob_urls st;
     next_url := next_url st |}.

Definition setDescriptionText (v : option jsstring) (st : State) : State :=
  {| audioUrl := audioUrl st; descriptionText := v;
     status := status st; errorMessage := errorMessage st;
     audioObjectUrlRef := audioObjectUrlRef st;
     input_files := input_files st; blob_urls := blob_urls st;
     next_url := next_url st |}.

Definition setStatus (v : Status) (st : State) : State :=
  {| audioUrl := audioUrl st; descriptionText := descriptionText st;
     status := v; errorMessage := errorMessage st;
     audioObjectUrlRef := audioObjectUrlRef st;
     input_files := input_files st; blob_urls := blob_urls st;
     next_url := next_url st |}.

Definition setErrorMessage (v : option jsstring) (st : State) : State :=
  {| audioUrl := audioUrl st; descriptionText := descriptionText st;
     status := status st; errorMessage := v;
     audioObjectUrlRef := audioObjectUrlRef st;
     input_files := input_files st; blob_urls := blob_urls st;
     next_url := next_url st |}.

(** [audioObjectUrlRef.current = v] *)
Definition set_ref (v : option ObjectURL) (st : State) : State :=
  {| audioUrl := audioUrl st; descriptionText := descriptionText st;
     status := status st; errorMessage := errorMessage st;
     audioObjectUrlRef := v;
     input_files := input_files st; blob_urls := blob_urls st;
     next_url := next_url st |}.

(** The user's choice in the file picker lands in the input. *)
Definition set_input_files (fs : list File) (st : State) : State :=
  {| audioUrl := audioUrl st; descriptionText := descriptionText st;
     status := status st; errorMessage := errorMessage st;
     audioObjectUrlRef := audioObjectUrlRef st;
     input_files := fs; blob_urls := blob_urls st;
     next_url := next_url st |}.

(** [input.value = ""] empties the input's file list. *)
Definition clear_input (st : State) : State := set_input_files [] st.

(** [URL.revokeObjectURL(u)] *)
Definition revokeObjectURL (u : ObjectURL) (st : State) : State :=
  {| audioUrl := audioUrl st; descriptionText := descriptionText st;
     status := status st; errorMessage := errorMessage st;
     audioObjectUrlRef := audioObjectUrlRef st;
     input_files := input_files st; blob_urls := blob_urls st ∖ {[u]};
     next_url := next_url st |}.

(** [URL.createObjectURL(blob)] *)
Definition createObjectURL (st : State) : ObjectURL * State :=
  (next_url st,
   {| audioUrl := audioUrl st; descriptionText := descriptionText st;
      status := status st; errorMessage := errorMessage st;
      audioObjectUrlRef := audioObjectUrlRef st;
      input_files := input_files st;
      blob_urls := blob_urls st ∪ {[next_url st]};
      next_url := Pos.succ (next_url st) |}).

Definition initial : State :=
  {| audioUrl := None; descriptionText := None; status := idle;
     errorMessage := None; audioObjectUrlRef := None; input_files := [];
     blob_urls := ∅; next_url := 1%positive |}.

(** [resetState] (lines 21-26) *)
Definition resetState (st : State) : State :=
  setStatus idle
    (setErrorMessage None (setDescriptionText None (setAudioUrl None st))).

(** [revokePreviousAudioUrl] (lines 28-33) *)
Definition revokePreviousAudioUrl (st : State) : State :=
  match audioObjectUrlRef st with
  | Some u => set_ref None (revokeObjectURL u st)
  | None => st
  end.

(** What [fetch] and the response give back to one upload. *)
Inductive Failure := NetworkError | RequestFailed | BodyError | MalformedURI.

Record FetchResponse := {
  ok : bool;                            (* response.ok *)
  blob : option Failure;                (* response.blob() throws, or not *)
  description_header : option jsstring  (* headers.get("X-Description-Text") *)
}.

Definition Fetch := (Failure + FetchResponse)%type.

(** The body of the [try] block (lines 72-95): the state it leaves and
    whether it threw. *)
Definition try_upload (fetch : Fetch) (st : State) : State * option Failure :=
  match fetch with
  | inl e => (st, Some e)
  | inr response =>
      if negb (ok response) then (st, Some RequestFailed)
      else
        let st := setStatus processing st in
        match blob response with
        | Some e => (st, Some e)
        | None =>
            let '(url, st) := createObjectURL st in
            let st := revokePreviousAudioUrl st in
            let st := set_ref (Some url) st in
            let st := setAudioUrl (Some url) st in
            match description_header response with
            | None => (setStatus done st, None)
            | Some h =>
                if negb (truthy h) then (setStatus done st, None)
                else
                  match decodeURIComponent h with
                  | None => (st, Some MalformedURI)
                  | Some decoded =>
                      let st := if truthy decoded
                                then setDescriptionText (Some decoded) st
                                else st in
                      (setStatus done st, None)
                  end
            end
        end
  end.

(** [handleFileChange] (lines 35-106), run on the input's current files. *)
Definition handleFileChange (fetch : Fetch) (st : State) : State :=
  let file := head (input_files st) in
  let st := revokePreviousAudioUrl st in
  let st := setAudioUrl None st in
  let st := setDescriptionText None st in
  let st := setErrorMessage None st in
  match file with
  | None => setStatus idle st
  | Some file =>
      if negb (startsWith (file_type file) (lit "image/")) then
        let st := setStatus error st in
        let st := setErrorMessage
          (Some (lit "Please select an image file (PNG, JPG, etc.).")) st in
        clear_input st
      else if file_size file >? MAX_FILE_SIZE_MB * (1024 * 1024) then
        (* fileSizeMb = file.size / (1024 * 1024) > MAX_FILE_SIZE_MB *)
        let st := setStatus error st in
        let st := setErrorMessage
          (Some (lit "File is too large. Please use an image under 10 MB.")) st in
        clear_input st
      else
        let st := setStatus uploading st in
        let '(st, thrown) := try_upload fetch st in
        let st :=
          match thrown with
          | None => st
          | Some _ =>
              let st := revokePreviousAudioUrl st in
              let st := setStatus error st in
              setErrorMessage
                (Some (lit "Something went wrong while generating the audio description.")) st
          end in
        clear_input st
  end.

(** The user's actions on the page, in a sequential run: every upload
    settles before the next action. Overlapping uploads are the subject of
    [async_step] below. *)
Inductive Action :=
  | SelectFiles (fs : list File) (fetch : Fetch)   (* pick files in the dialog *)
  | ClickReset.                                    (* the Reset button *)

Definition step (a : Action) (st : State) : State :=
  match a with
  | SelectFiles fs fetch => handleFileChange fetch (set_input_files fs st)
  | ClickReset => resetState st
  end.

Definition run (actions : list Action) (st : State) : State :=
  fold_left (fun s a => step a s) actions st.

(** A file input fires [change] when the picked files differ from the ones
    it holds. *)
Definition fires_change (fs : list File) (st : State) : bool :=
  negb (bool_decide (map file_name fs = map file_name (input_files st))).

(** The verdict of the client-side validation on a file. *)
Definition passes_validation (file : File) : bool :=
  startsWith (file_type file) (lit "image/")
  && negb (file_size file >? MAX_FILE_SIZE_MB * (1024 * 1024)).

(** *** Sample data *)
Definition sample_file : File := Route.sample_file.

(** A successful upload: the response is read and carries a description. *)
Definition ok_fetch : Fetch :=
  inr {| ok := true; blob := None;
         description_header := Some (lit "A%20dog%20on%20a%20beach.") |}.

(** A text file, which fails the client's type check. *)
Definition text_file : File :=
  {| Route.file_name := lit "notes.txt"; Route.file_type := lit "text/plain";
     Route.file_bytes := [104; 105] |}.

(** The handles the page still holds the browser to. *)
Definition tracked (st : State) : gset ObjectURL :=
  match audioObjectUrlRef st with
  | Some u => {[u]}
  | None => ∅
  end.

(** *** What the page renders *)

(** [isBusy] (line 19): the picker button is disabled while it holds. *)
Definition isBusy (st : State) : bool :=
  match status st with
  | uploading | processing => true
  | _ => false
  end.

(** The text of the live region (lines 171-181); [None] when it is blank. *)
Definition live_message (st : State) : option jsstring :=
  match status st with
  | idle => Some (lit "No file selected yet.")
  | uploading => Some (lit "Uploading image" ++ [8230])
  | processing => Some (lit "Generating description and audio" ++ [8230])
  | done => Some (lit "Audio description ready.")
  | error => errorMessage st
  end.

(** The audio section, with the player and the download link, is rendered
    when [audioUrl] is set (line 193). *)
Definition shows_audio (st : State) : bool :=
  match audioUrl st with Some _ => true | None => false end.

(** The description section is rendered when [descriptionText] is set and
    not empty (line 183). *)
Definition shows_description (st : State) : bool :=
  match descriptionText st with Some t => truthy t | None => false end.

Definition generic_error : jsstring :=
  lit "Something went wrong while generating the audio description.".

(** What [fetch] resolves to for a response of the route whose body can be
    read: [response.ok] holds for the statuses 200 to 299. *)
Definition receive (resp : Route.Response) : Fetch :=
  inr {| ok := (200 <=? Route.status resp) && (Route.status resp <=? 299);
         blob := None;
         description_header :=
           Route.header (lit "X-Description-Text") (Route.headers resp) |}.

(** The request that the page's [fetch] sends for a file: form data with
    the single field [file] (lines 68-75). *)
Definition upload_request (file : File) : Route.Request :=
  {| Route.content_type := Some (lit "multipart/form-data; boundary=upload");
     Route.read_formData := Route.Returned [(lit "file", Route.EntryFile file)];
     Route.read_json := Route.Thrown Route.SyntaxError |}.

(** A response whose description header ends in a lone percent sign. *)
Definition bad_header_fetch : Fetch :=
  inr {| ok := true; blob := None;
         description_header := Some (lit "A%20dog%") |}.

(** *** The handler between its awaits

    [handleFileChange] is asynchronous: it is suspended at [await fetch]
    (line 72) and at [await response.blob()] (line 83), and while it is,
    the page goes on: only the picker button is disabled, not the input,
    its label or the Reset button. These are its three blocks. *)

(** The [catch] block (lines 96-102) and the [finally] block (line 104). *)
Definition catch_finally (st : State) : State :=
  let st := revokePreviousAudioUrl st in
  let st := setStatus error st in
  let st := setErrorMessage (Some generic_error) st in
  clear_input st.

(** Lines 36-70: from the change event to the dispatch of [fetch]; the
    flag tells whether [fetch] was dispatched. *)
Definition start_upload (st : State) : State * bool :=
  let file := head (input_files st) in
  let st := revokePreviousAudioUrl st in
  let st := setAudioUrl None st in
  let st := setDescriptionText None st in
  let st := setErrorMessage None st in
  match file with
  | None => (setStatus idle st, false)
  | Some file =>
      if negb (startsWith (file_type file) (lit "image/")) then
        let st := setStatus error st in
        let st := setErrorMessage
          (Some (lit "Please select an image file (PNG, JPG, etc.).")) st in
        (clear_input st, false)
      else if file_size file >? MAX_FILE_SIZE_MB * (1024 * 1024) then
        let st := setStatus error st in
        let st := setErrorMessage
          (Some (lit "File is too large. Please use an image under 10 MB.")) st in
        (clear_input st, false)
      else (setStatus uploading st, true)
  end.

(** Lines 72-83: [fetch] has settled; the handler ends in the [catch]
    block, or goes on to read the body of the response it returns. *)
Definition fetch_settled (fetch : Fetch) (st : State)
  : State * option FetchResponse :=
  match fetch with
  | inl _ => (catch_finally st, None)
  | inr response =>
      if negb (ok response) then (catch_finally st, None)
      else (setStatus processing st, Some response)
  end.

(** Lines 83-105: the reading of the body has settled. *)
Definition body_settled (response : FetchResponse) (st : State) : State :=
  match blob response with
  | Some _ => catch_finally st
  | None =>
      let '(url, st) := createObjectURL st in
      let st := revokePreviousAudioUrl st in
      let st := set_ref (Some url) st in
      let st := setAudioUrl (Some url) st in
      match description_header response with
      | None => clear_input (setStatus done st)
      | Some h =>
          if negb (truthy h) then clear_input (setStatus done st)
          else
            match decodeURIComponent h with
            | None => catch_finally st
            | Some decoded =>
                let st := if truthy decoded
                          then setDescriptionText (Some decoded) st
                          else st in
                clear_input (setStatus done st)
            end
      end
  end.

(** A suspended handler: at [await fetch], or at [await response.blob()]
    with the response it holds. *)
Inductive Pending :=
  | AwaitingFetch
  | AwaitingBody (response : FetchResponse).

(** The page with the handlers that are suspended. *)
Record Async := { page : State; pending : list Pending }.

(** What can happen next: the user picks files or presses Reset, the
    [fetch] of a suspended handler settles, or the reading of a body does.
    An event for a handler that is not suspended there changes nothing. *)
Inductive Event :=
  | Select (fs : list File)
  | PressReset
  | FetchSettles (i : nat) (fetch : Fetch)
  | BodySettles (i : nat).

Definition async_step (ev : Event) (a : Async) : Async :=
  match ev with
  | Select fs =>
      let '(st, dispatched) := start_upload (set_input_files fs (page a)) in
      {| page := st;
         pending := if dispatched then pending a ++ [AwaitingFetch]
                    else pending a |}
  | PressReset => {| page := resetState (page a); pending := pending a |}
  | FetchSettles i fetch =>
      match pending a !! i with
      | Some AwaitingFetch =>
          let '(st, next) := fetch_settled fetch (page a) in
          {| page := st;
             pending := match next with
                        | Some response =>
                            <[i := AwaitingBody response]> (pending a)
                        | None => delete i (pending a)
                        end |}
      | _ => a
      end
  | BodySettles i =>
      match pending a !! i with
      | Some (AwaitingBody response) =>
          {| page := body_settled response (page a);
             pending := delete i (pending a) |}
      | _ => a
      end
  end.

Definition async_run (events : list Event) (a : Async) : Async :=
  fold_left (fun a ev => async_step ev a) events a.

Definition async_initial : Async := {| page := initial; pending := [] |}.

(** What holds of the page whenever no handler is running. *)
Definition steady (st : State) : Prop :=
  blob_urls st = tracked st
  /\ (forall u, audioObjectUrlRef st = Some u -> (u < next_url st)%positive)
  /\ (status st = error ->
      is_Some (errorMessage st) /\ blob_urls st = ∅
      /\ audioObjectUrlRef st = None)
  /\ (status st = idle -> audioUrl st = None /\ descriptionText st = None)
  /\ (status st = done ->
      exists u, audioUrl st = Some u /\ audioObjectUrlRef st = Some u
                /\ blob_urls st = {[u]}).

(** A block keeps the page steady, hands out no old URL and creates at
    most the next one. *)
Definition keeps (st st' : State) : Prop :=
  steady st'
  /\ (next_url st <= next_url st')%positive
  /\ (forall v, v ∈ blob_urls st' -> v ∈ blob_urls st \/ v = next_url st).

(** Two uploads that overlap: the second file is picked while the first
    upload is pending, the second upload succeeds, then the first fails. *)
Definition overlapping_uploads : list Event :=
  [Select [sample_file]; Select [sample_file];
   FetchSettles 1 ok_fetch; BodySettles 1;
   FetchSettles 0 (inl NetworkError)].

End Page.

(** ** The token bucket *)
Module TokenBucket.

Record Options := { refillRate : Z; interval : Z; capacity : Z }.

(** The options of [tokenBucket] in route.ts (lines 36-41), and the cost
    [requested: 1] of line 84. *)
Definition options : Options :=
  {| refillRate := 5; interval := 60; capacity := 5 |}.
Definition requested : Z := 1.

Record Bucket := { tokens : Z; last_refill : Z }.

(** Modelled from the spec: the limiter itself runs inside the Arcjet
    service and is not in the repository. "Token bucket: rate-limiting
    algorithm with a fixed capacity that refills at a constant rate;
    requests consume tokens and are denied when the bucket is empty", with
    "refill rate = 5 units, interval = 60 seconds, capacity = 5 units":
    [refillRate] tokens are added for every whole [interval] elapsed since
    the last refill, never beyond [capacity]. Times are in seconds. *)
Definition refill (o : Options) (now : Z) (b : Bucket) : Bucket :=
  let k := (now - last_refill b) / interval o in
  {| tokens := Z.min (capacity o) (tokens b + k * refillRate o);
     last_refill := last_refill b + k * interval o |}.

(** Modelled from the spec: a request takes its cost from the refilled
    bucket, or is denied and takes nothing. *)
Definition consume (o : Options) (cost now : Z) (b : Bucket) : bool * Bucket :=
  let b' := refill o now b in
  if cost <=? tokens b'
  then (true, {| tokens := tokens b' - cost; last_refill := last_refill b' |})
  else (false, b').


(** A bucket that has been full since time 0. *)
Definition full_since_0 : Bucket := {| tokens := 5; last_refill := 0 |}.

(** The verdicts for requests arriving at the given times. *)
Fixpoint verdicts (o : Options) (cost : Z) (times : list Z) (b : Bucket)
  : list bool :=
  match times with
  | [] => []
  | t :: rest =>
      let '(allowed, b') := consume o cost t b in
      allowed :: verdicts o cost rest b'
  end.


End TokenBucket.

(** * Properties *)

Import JS URI.

(** ** Strings *)
Section StringFacts.

Lemma startsWith_prefix s p : startsWith s p = true <-> exists t, s = p ++ t.
Proof.
  revert s; induction p as [|c p IH]; intros s; simpl.
  - split; [intros _; by exists s | done].
  - destruct s as [|d s].
    + split; [discriminate | intros [t Ht]; discriminate].
    + rewrite andb_true_iff, Z.eqb_eq, IH. split.
      * intros [-> [t ->]]. by exists t.
      * intros [t Ht]. injection Ht as -> ->. split; [done | by exists t].
Qed.

Lemma startsWith_nonempty s p : p <> [] -> startsWith s p = true -> s <> [].
Proof.
  intros Hp H ->. destruct p; [done | discriminate].
Qed.

Lemma trimStart_split s :
  exists l, s = l ++ trimStart s /\ Forall (fun c => is_whitespace c = true) l.
Proof.
  induction s as [|c s [l [Hs Hl]]]; simpl.
  - by exists [].
  - destruct (is_whitespace c) eqn:Hc.
    + exists (c :: l). split; [simpl; congruence | by constructor].
    + by exists [].
Qed.

Lemma trimStart_head s c r : trimStart s = c :: r -> is_whitespace c = false.
Proof.
  induction s as [|d s IH]; simpl; [done|].
  destruct (is_whitespace d) eqn:Hd; [done|].
  intros [= -> _]. done.
Qed.

Lemma trimStart_nil_iff s :
  trimStart s = [] <-> Forall (fun c => is_whitespace c = true) s.
Proof.
  induction s as [|c s IH]; simpl.
  - split; [constructor | done].
  - destruct (is_whitespace c) eqn:Hc.
    + rewrite IH. split; [by constructor | by inversion 1].
    + split; [done | inversion 1; congruence].
Qed.

(** [trim] removes a run of whitespace at either end, and nothing else. *)
Lemma trim_split s :
  exists l r, s = l ++ trim s ++ r
    /\ Forall (fun c => is_whitespace c = true) l
    /\ Forall (fun c => is_whitespace c = true) r.
Proof.
  unfold trim, trimEnd.
  destruct (trimStart_split s) as [l [Hl Fl]].
  destruct (trimStart_split (rev (trimStart s))) as [r [Hr Fr]].
  exists l, (rev r). split; [|split]; [|done|].
  - rewrite <- rev_app_distr, <- Hr, rev_involutive. done.
  - by apply Forall_rev.
Qed.

Lemma trim_no_leading s c r : trim s = c :: r -> is_whitespace c = false.
Proof.
  unfold trim, trimEnd. intros H.
  destruct (trimStart_split (rev (trimStart s))) as [l [Hl Fl]].
  apply (f_equal (@rev Z)) in Hl. rewrite rev_involutive, rev_app_distr, H in Hl.
  destruct (trimStart s) as [|d t] eqn:Ht; [done|].
  injection Hl as -> _. by apply trimStart_head in Ht.
Qed.

Lemma trim_no_trailing s c r : trim s = r ++ [c] -> is_whitespace c = false.
Proof.
  unfold trim, trimEnd. intros H.
  apply (f_equal (@rev Z)) in H. rewrite rev_involutive, rev_app_distr in H.
  simpl in H. by apply trimStart_head in H.
Qed.

Lemma trim_nil_iff s :
  trim s = [] <-> Forall (fun c => is_whitespace c = true) s.
Proof.
  split.
  - intros H. destruct (trim_split s) as [l [r [Hs [Fl Fr]]]].
    rewrite H in Hs. rewrite Hs. simpl. by apply Forall_app.
  - intros H. unfold trim, trimEnd.
    apply trimStart_nil_iff in H. rewrite H. done.
Qed.

Lemma trimStart_whitespace l s :
  Forall (fun c => is_whitespace c = true) l -> trimStart (l ++ s) = trimStart s.
Proof. induction 1 as [|c l Hc _ IH]; simpl; [done|]. by rewrite Hc. Qed.

(** [trim] gives the trimmed string, and nothing else is one. *)
Lemma trim_trimmed s : trimmed s (trim s).
Proof.
  destruct (trim_split s) as [l [r [Hs [Hl Hr]]]]. exists l, r.
  split; [done|]. split; [done|]. split; [done|]. split.
  - intros c rest. apply trim_no_leading.
  - intros front c. apply trim_no_trailing.
Qed.

Lemma trimmed_trim s t : trimmed s t -> trim s = t.
Proof.
  intros (l & r & -> & Hl & Hr & Hhead & Hlast). unfold trim, trimEnd.
  rewrite (trimStart_whitespace l) by done.
  destruct t as [|c rest].
  - simpl. apply trimStart_nil_iff in Hr. by rewrite Hr.
  - pose proof (Hhead c rest eq_refl) as Hc.
    change ((c :: rest) ++ r) with (c :: (rest ++ r)). simpl. rewrite Hc.
    change (c :: rest ++ r) with ((c :: rest) ++ r).
    rewrite rev_app_distr, (trimStart_whitespace (rev r))
      by (by apply Forall_rev).
    destruct (exists_last (l:=c :: rest)) as [front [c' Ht]]; [done|].
    rewrite Ht, rev_app_distr. simpl.
    rewrite (Hlast front c' Ht). simpl.
    by rewrite rev_involutive.
Qed.

End StringFacts.

(** ** Percent-encoding round trip *)
Section URIFacts.

Ltac tests :=
  repeat match goal with
  | |- context [?a <? ?b] => destruct (Z.ltb_spec a b); try lia
  | |- context [?a <=? ?b] => destruct (Z.leb_spec a b); try lia
  | |- context [?a =? ?b] => destruct (Z.eqb_spec a b); try lia
  | H : context [?a <? ?b] |- _ => destruct (Z.ltb_spec a b); try lia
  | H : context [?a <=? ?b] |- _ => destruct (Z.leb_spec a b); try lia
  | H : context [?a =? ?b] |- _ => destruct (Z.eqb_spec a b); try lia
  end.

Lemma hex_value_hex_digit n : 0 <= n < 16 -> hex_value (hex_digit n) = Some n.
Proof.
  intros Hn. unfold hex_value, hex_digit, in_range.
  tests; simpl; try lia; f_equal; lia.
Qed.

Lemma hex_digit_safe n : 0 <= n < 16 -> header_safe (hex_digit n).
Proof. intros Hn. unfold header_safe, hex_digit. tests. Qed.

Lemma unescaped_safe c : unescaped c = true -> header_safe c.
Proof.
  unfold unescaped, in_range, header_safe. intros H.
  tests; simpl in H; try discriminate; lia.
Qed.

Lemma unescaped_not_percent c : unescaped c = true -> c <> 37.
Proof. intros H ->. vm_compute in H. discriminate. Qed.

Lemma utf8_octets cp : 0 <= cp < 1114112 -> Forall octet (utf8 cp).
Proof.
  intros Hcp. unfold utf8, octet.
  tests; repeat constructor; try (Z.div_mod_to_equations; lia).
Qed.

Lemma escape_octets_cons b bs :
  escape_octets (b :: bs) =
  37 :: hex_digit (b / 16) :: hex_digit (b mod 16) :: escape_octets bs.
Proof. reflexivity. Qed.

Lemma escape_octets_safe bs : Forall octet bs -> Forall header_safe (escape_octets bs).
Proof.
  induction 1 as [|b bs Hb _ IH]; [constructor|].
  rewrite escape_octets_cons. unfold octet in Hb.
  repeat constructor; try (unfold header_safe; lia); [..|exact IH];
    apply hex_digit_safe; Z.div_mod_to_equations; lia.
Qed.

Lemma unescape_escape_octets bs s :
  Forall octet bs ->
  unescape (escape_octets bs ++ s) = app (map Oct bs) <$> unescape s.
Proof.
  induction 1 as [|b bs Hb _ IH]; simpl.
  - by destruct (unescape s).
  - unfold octet in Hb.
    rewrite !hex_value_hex_digit by (Z.div_mod_to_equations; lia).
    fold (escape_octets bs). rewrite IH.
    replace (16 * (b / 16) + b mod 16) with b by (Z.div_mod_to_equations; lia).
    by destruct (unescape s).
Qed.

Lemma unescape_literal c s :
  c <> 37 -> unescape (c :: s) = cons (Lit c) <$> unescape s.
Proof. intros Hc. simpl. by destruct (Z.eqb_spec c 37). Qed.

Lemma utf16_pair hi lo :
  is_lead hi = true -> is_trail lo = true ->
  utf16 (pair_code_point hi lo) = [hi; lo].
Proof.
  unfold is_lead, is_trail, in_range, utf16, pair_code_point. intros H1 H2.
  tests; simpl in *; try discriminate.
  f_equal; [|f_equal]; Z.div_mod_to_equations; lia.
Qed.

Lemma pair_scalar hi lo :
  is_lead hi = true -> is_trail lo = true -> scalar (pair_code_point hi lo).
Proof.
  unfold is_lead, is_trail, in_range, scalar, pair_code_point. intros H1 H2.
  tests; simpl in *; try discriminate; lia.
Qed.

Lemma decode_tokens_utf8 cp ts :
  scalar cp ->
  decode_tokens (map Oct (utf8 cp) ++ ts) = app (utf16 cp) <$> decode_tokens ts.
Proof.
  intros [Hcp Hs]. unfold utf8.
  destruct (Z.ltb_spec cp 128); [|destruct (Z.ltb_spec cp 2048);
    [|destruct (Z.ltb_spec cp 65536)]]; simpl.
  - destruct (Z.ltb_spec cp 128); [|lia].
    unfold utf16. destruct (Z.ltb_spec cp 65536); [done | lia].
  - assert (decode2 (192 + cp / 64) (128 + cp mod 64) = Some cp) as ->.
    { unfold decode2, continuation, in_range.
      replace ((192 + cp / 64 - 192) * 64 + (128 + cp mod 64 - 128)) with cp
        by (Z.div_mod_to_equations; lia).
      assert (0 <= cp mod 64 < 64) by (apply Z.mod_pos_bound; lia).
      tests; done. }
    assert (2 <= cp / 64 < 32) by (Z.div_mod_to_equations; lia).
    tests; done.
  - assert (decode3 (224 + cp / 4096) (128 + (cp / 64) mod 64)
              (128 + cp mod 64) = Some cp) as ->.
    { unfold decode3, continuation, in_range.
      replace ((224 + cp / 4096 - 224) * 4096
               + (128 + (cp / 64) mod 64 - 128) * 64
               + (128 + cp mod 64 - 128)) with cp
        by (Z.div_mod_to_equations; lia).
      assert (0 <= cp mod 64 < 64) by (apply Z.mod_pos_bound; lia).
      assert (0 <= (cp / 64) mod 64 < 64) by (apply Z.mod_pos_bound; lia).
      tests; done. }
    assert (0 <= cp / 4096 < 16) by (Z.div_mod_to_equations; lia).
    tests; done.
  - assert (decode4 (240 + cp / 262144) (128 + (cp / 4096) mod 64)
              (128 + (cp / 64) mod 64) (128 + cp mod 64) = Some cp) as ->.
    { unfold decode4, continuation, in_range.
      replace ((240 + cp / 262144 - 240) * 262144
               + (128 + (cp / 4096) mod 64 - 128) * 4096
               + (128 + (cp / 64) mod 64 - 128) * 64
               + (128 + cp mod 64 - 128)) with cp
        by (Z.div_mod_to_equations; lia).
      assert (0 <= cp mod 64 < 64) by (apply Z.mod_pos_bound; lia).
      assert (0 <= (cp / 64) mod 64 < 64) by (apply Z.mod_pos_bound; lia).
      assert (0 <= (cp / 4096) mod 64 < 64) by (apply Z.mod_pos_bound; lia).
      tests; done. }
    assert (0 <= cp / 262144 < 8) by (Z.div_mod_to_equations; lia).
    tests; done.
Qed.

Lemma decode_unescaped c h :
  unescaped c = true ->
  decodeURIComponent (c :: h) = cons c <$> decodeURIComponent h.
Proof.
  intros Hc. unfold decodeURIComponent.
  rewrite unescape_literal by (by apply unescaped_not_percent).
  by destruct (unescape h).
Qed.

Lemma decode_escaped cp h :
  scalar cp ->
  decodeURIComponent (escape_octets (utf8 cp) ++ h)
  = app (utf16 cp) <$> decodeURIComponent h.
Proof.
  intros Hcp. unfold decodeURIComponent.
  rewrite unescape_escape_octets by (apply utf8_octets, Hcp).
  destruct (unescape h); simpl; [|done].
  by apply decode_tokens_utf8.
Qed.

Lemma code_unit_scalar c :
  code_unit c -> is_lead c = false -> is_trail c = false -> scalar c.
Proof.
  unfold code_unit, is_lead, is_trail, in_range, scalar. intros Hc H1 H2.
  split; [lia|]. tests; simpl in *; try discriminate; lia.
Qed.

Lemma utf16_bmp c : code_unit c -> utf16 c = [c].
Proof. unfold code_unit, utf16. intros Hc. by tests. Qed.

Lemma escaped_safe cp : scalar cp -> Forall header_safe (escape_octets (utf8 cp)).
Proof. intros [Hcp _]. by apply escape_octets_safe, utf8_octets. Qed.

(** What [encodeURIComponent] returns is header-safe and decodes back to
    the string it was given. *)
Lemma encode_decode_bounded (n : nat) :
  forall s h, (length s <= n)%nat -> wf s ->
    encodeURIComponent s = Some h ->
    decodeURIComponent h = Some s /\ Forall header_safe h.
Proof.
  induction n as [|n IH]; intros s h Hlen Hwf Henc.
  { destruct s; [|simpl in Hlen; lia]. injection Henc as <-. by split. }
  destruct s as [|c rest]; [injection Henc as <-; by split|].
  apply Forall_cons in Hwf as [Hc Hrest]. simpl in Hlen, Henc.
  destruct (unescaped c) eqn:Hu.
  - destruct (encodeURIComponent rest) as [h'|] eqn:Hr; [|done].
    injection Henc as <-.
    destruct (IH rest h') as [Hd Hs]; [lia|done|done|].
    rewrite decode_unescaped, Hd by done.
    split; [done | constructor; [by apply unescaped_safe | done]].
  - destruct (is_lead c) eqn:Hl.
    + destruct rest as [|d rest']; [done|].
      destruct (is_trail d) eqn:Ht; [|done].
      destruct (encodeURIComponent rest') as [h'|] eqn:Hr; [|done].
      injection Henc as <-.
      apply Forall_cons in Hrest as [Hd' Hrest']. simpl in Hlen.
      destruct (IH rest' h') as [Hd Hs]; [lia|done|done|].
      pose proof (pair_scalar c d Hl Ht) as Hsc.
      rewrite decode_escaped, Hd, utf16_pair by done.
      split; [done | apply Forall_app; split; [by apply escaped_safe | done]].
    + destruct (is_trail c) eqn:Ht; [done|].
      destruct (encodeURIComponent rest) as [h'|] eqn:Hr; [|done].
      injection Henc as <-.
      destruct (IH rest h') as [Hd Hs]; [lia|done|done|].
      pose proof (code_unit_scalar c Hc Hl Ht) as Hsc.
      rewrite decode_escaped, Hd, utf16_bmp by done.
      split; [done | apply Forall_app; split; [by apply escaped_safe | done]].
Qed.

Lemma encode_decode s h :
  wf s -> encodeURIComponent s = Some h -> decodeURIComponent h = Some s.
Proof. intros Hwf He. by apply (encode_decode_bounded (length s) s h). Qed.

Lemma encode_header_safe s h :
  wf s -> encodeURIComponent s = Some h -> Forall header_safe h.
Proof. intros Hwf He. by apply (encode_decode_bounded (length s) s h). Qed.

(** Encoding fails only at an unpaired surrogate: a string of scalar
    values always encodes. *)
Lemma encode_total s :
  Forall (fun c => is_lead c = false /\ is_trail c = false) s ->
  is_Some (encodeURIComponent s).
Proof.
  induction 1 as [|c s [Hl Ht] _ [h Hh]]; simpl; [by eexists|].
  rewrite Hl, Ht, Hh. destruct (unescaped c); by eexists.
Qed.

End URIFacts.

(** ** The route *)
Section RouteFacts.
Import Arcjet Route.

#[local] Arguments lit : simpl never.
#[local] Arguments startsWith : simpl never.
#[local] Arguments base64 : simpl never.




Lemma POST_turned_away w d :
  protect w = Returned d -> turned_away d = true ->
  exists resp, POST w = ([Protect], Returned resp)
    /\ status resp = (if isDenied d && isRateLimit (reason d) then 429 else 403).
Proof.
  unfold turned_away, POST, call. intros -> Hd. simpl.
  destruct (isDenied d); simpl in *.
  - destruct (isRateLimit (reason d)); [by eexists|].
    destruct (isBot (reason d)); by eexists.
  - destruct (ip_isHosting d); simpl in *; [by eexists|].
    rewrite Hd. by eexists.
Qed.

Lemma POST_admitted w d :
  protect w = Returned d -> turned_away d = false ->
  POST w =
  (let '(t, r) := try_catch (pipeline w) (fun _ => ret internal_error)
   in (Protect :: t, r)).
Proof.
  unfold turned_away, POST, call. intros -> Hd. simpl.
  apply orb_false_elim in Hd as [Hd Hs]. apply orb_false_elim in Hd as [Hd Hh].
  rewrite Hd, Hh, Hs. done.
Qed.



Lemma pipeline_status w resp :
  snd (pipeline w) = Returned resp -> status resp = 200 \/ status resp = 400.
Proof.
  unfold pipeline, bind, call, ret, encode_header, throw.
  destruct (extractImageDataUrl (request w)) as [t [[url|]|e]]; simpl;
    [|intros [= <-]; by right|done].
  destruct (negb (truthy url)); simpl; [intros [= <-]; by right|].
  destruct (vision w url) as [visionRes|]; simpl; [|done].
  destruct (speech w _) as [ttsRes|]; simpl; [|done].
  destruct (arrayBuffer ttsRes); simpl; [|done].
  destruct (encodeURIComponent _); simpl; [|done].
  intros [= <-]. by left.
Qed.



Lemma extract_multipart req fd :
  multipart req = true -> read_formData req = Returned fd ->
  extractImageDataUrl req =
  ([ReadFormData],
   Returned
     match formData_get (lit "file") fd with
     | Some (EntryFile file) =>
         if startsWith (file_type file) (lit "image/")
            && (file_size file <=? MAX_FILE_SIZE_BYTES)
         then Some (lit "data:" ++ or_else (file_type file) (lit "image/png")
                    ++ lit ";base64," ++ base64 (file_bytes file))
         else None
     | _ => None
     end).
Proof.
  unfold multipart, extractImageDataUrl. intros -> Hfd.
  unfold bind, call, ret. rewrite Hfd.
  destruct (formData_get _ fd) as [[s|file]|]; try done.
  destruct (startsWith (file_type file) _); simpl; [|done].
  rewrite Z.gtb_ltb, Z.leb_antisym.
  by destruct (MAX_FILE_SIZE_BYTES <? file_size file).
Qed.

Lemma extract_json req :
  multipart req = false ->
  extractImageDataUrl req =
  ([ReadJson],
   Returned
     match read_json req with
     | Returned j =>
         match get_property (lit "imageBase64") j with
         | Some (JString s) =>
             if startsWith s (lit "data:image") then Some s else None
         | _ => None
         end
     | Thrown _ => None
     end).
Proof.
  unfold multipart, extractImageDataUrl. intros ->.
  unfold try_catch, bind, call, ret.
  destruct (read_json req) as [j|e]; [|done].
  destruct (get_property _ j) as [[| | |s| |]|]; try done.
  by destruct (startsWith s _).
Qed.

(** The [image/png] default of line 60 never applies. *)
Lemma declared_type_kept (file : File) :
  startsWith (file_type file) (lit "image/") = true ->
  or_else (file_type file) (lit "image/png") = file_type file
  /\ file_type file <> [].
Proof.
  intros H. apply startsWith_nonempty in H; [|done].
  split; [|done]. unfold or_else. by destruct (file_type file).
Qed.

(** C3 (as the code has it). For a request that is not declared multipart,
    or whose multipart body can be read as form data, the extractor returns
    a data URL exactly when (a) the request is multipart and its [file]
    field holds a file with a declared type starting with [image/] and at
    most 10 MiB, giving [data:<declared type>;base64,<payload>], or (b) the
    request is not multipart and its body parses as JSON with a string
    field [imageBase64] starting with [data:image], passed through
    unchanged; every other such request gives the no-image result, and the
    handler then answers 400 without calling a model. *)
Theorem C3_extraction (req : Request) :
  (multipart req = true -> exists fd, read_formData req = Returned fd) ->
  (forall url,
     snd (extractImageDataUrl req) = Returned (Some url) <->
     multipart_image req url \/ (multipart req = false /\ json_image req url))
  /\ ((forall url, ~ (multipart_image req url
                      \/ (multipart req = false /\ json_image req url))) ->
      snd (extractImageDataUrl req) = Returned None)
  /\ (forall w d,
        request w = req -> protect w = Returned d -> turned_away d = false ->
        snd (extractImageDataUrl req) = Returned None ->
        snd (POST w) = Returned invalid_image
        /\ vision_inputs (fst (POST w)) = []
        /\ speech_inputs (fst (POST w)) = []).
Proof.
  intros Hfd.
  assert (forall url,
     snd (extractImageDataUrl req) = Returned (Some url) <->
     multipart_image req url \/ (multipart req = false /\ json_image req url))
    as Hiff.
  { intros url. destruct (multipart req) eqn:Hm.
    - destruct (Hfd eq_refl) as [fd Hr].
      rewrite (extract_multipart req fd Hm Hr). simpl.
      unfold multipart_image. rewrite Hm, Hr. split.
      + intros H. left. split; [done|].
        destruct (formData_get _ fd) as [[s|file]|] eqn:Hg; try done.
        destruct (startsWith (file_type file) _) eqn:Hs; [|done].
        destruct (Z.leb_spec (file_size file) MAX_FILE_SIZE_BYTES); [|done].
        simpl in H. injection H as <-.
        destruct (declared_type_kept file Hs) as [-> _].
        by exists fd, file.
      + intros [[_ [fd' [file [[= <-] [Hg [Hs [Hsz ->]]]]]]] | [? _]]; [|done].
        rewrite Hg, Hs. destruct (Z.leb_spec (file_size file) MAX_FILE_SIZE_BYTES);
          [|lia]. simpl.
        by destruct (declared_type_kept file Hs) as [-> _].
    - rewrite (extract_json req Hm). simpl. unfold json_image. split.
      + intros H. right. split; [done|].
        destruct (read_json req) as [j|e]; [|done].
        destruct (get_property _ j) as [[| | |s| |]|] eqn:Hg; try done.
        destruct (startsWith s _) eqn:Hs; [|done].
        injection H as <-. by exists j.
      + intros [[? _] | [_ [j [-> [-> ->]]]]]; [congruence | done]. }
  split; [exact Hiff|].
  assert (exists r, extractImageDataUrl req
                    = ((if multipart req then [ReadFormData] else [ReadJson]),
                       Returned r)) as [r Hr].
  { destruct (multipart req) eqn:Hm.
    - destruct (Hfd eq_refl) as [fd Hr].
      rewrite (extract_multipart req fd Hm Hr). by eexists.
    - rewrite (extract_json req Hm). by eexists. }
  split.
  - intros Hnone. destruct r as [url|]; [|by rewrite Hr].
    exfalso. apply (Hnone url), Hiff. by rewrite Hr.
  - intros w d Hreq Hp Ht. rewrite Hr. simpl. intros [= ->].
    rewrite (POST_admitted w d Hp Ht). unfold pipeline. rewrite Hreq, Hr.
    by destruct (multipart req).
Qed.

Lemma C3_extraction_witness :
  (multipart sample_request = true ->
   exists fd, read_formData sample_request = Returned fd)
  /\ snd (extractImageDataUrl sample_request)
     = Returned (Some (lit "data:image/png;base64,iVBORw=="))
  /\ multipart_image sample_request (lit "data:image/png;base64,iVBORw==").
Proof.
  assert (multipart sample_request = true ->
          exists fd, read_formData sample_request = Returned fd) as Hfd.
  { intros _. by eexists. }
  split; [exact Hfd|]. split; [reflexivity|].
  destruct (C3_extraction sample_request Hfd) as [Hiff _].
  destruct (proj1 (Hiff (lit "data:image/png;base64,iVBORw==")) eq_refl)
    as [H | [H _]]; [exact H | discriminate].
Defined.

(** C3 (as stated) fails on a request that declares multipart form data
    and carries a body that cannot be read as form data: neither shape
    applies, yet the result is not no-image and the answer is 500, not 400;
    and a JSON body that fits shape (b) is not passed through under a
    multipart content type. *)
Lemma C3_unreadable_multipart :
  (forall url, ~ (multipart_image broken_multipart url
                  \/ json_image broken_multipart url))
  /\ extractImageDataUrl broken_multipart = ([ReadFormData], Thrown TypeError)
  /\ POST (sample_world (Returned allow) broken_multipart)
     = ([Protect; ReadFormData], Returned internal_error)
  /\ json_image mislabelled_request (lit "data:image/png;base64,iVBORw==")
  /\ extractImageDataUrl mislabelled_request
     = ([ReadFormData], Thrown TypeError).
Proof.
  split; [|split; [reflexivity|split; [reflexivity|split; [|reflexivity]]]].
  - intros url [[_ [fd [file [H _]]]] | [j [H _]]]; discriminate.
  - eexists. split; [reflexivity|]. split; reflexivity.
Qed.

(** C10. When the extractor returns a data URL for a multipart request,
    the URL is [data:<declared type>;base64,<payload>] with the file's own
    declared type, which is non-empty and starts with [image/]; the
    [image/png] default is never used. *)
Theorem C10_declared_type (req : Request) (url : jsstring) :
  multipart req = true ->
  snd (extractImageDataUrl req) = Returned (Some url) ->
  exists fd file,
    read_formData req = Returned fd
    /\ formData_get (lit "file") fd = Some (EntryFile file)
    /\ url = lit "data:" ++ file_type file ++ lit ";base64,"
             ++ base64 (file_bytes file)
    /\ file_type file <> []
    /\ startsWith (file_type file) (lit "image/") = true
    /\ or_else (file_type file) (lit "image/png") = file_type file.
Proof.
  intros Hm. destruct (read_formData req) as [fd|e] eqn:Hr.
  - rewrite (extract_multipart req fd Hm Hr). simpl. intros H.
    destruct (formData_get _ fd) as [[s|file]|] eqn:Hg; try done.
    destruct (startsWith (file_type file) _) eqn:Hs; [|done].
    destruct (file_size file <=? _); [|done]. simpl in H. injection H as <-.
    destruct (declared_type_kept file Hs) as [He Hne].
    exists fd, file. rewrite He. done.
  - unfold extractImageDataUrl. unfold multipart in Hm. rewrite Hm.
    unfold bind, call. by rewrite Hr.
Qed.

Lemma C10_declared_type_witness :
  multipart sample_request = true
  /\ snd (extractImageDataUrl sample_request)
     = Returned (Some (lit "data:image/png;base64,iVBORw=="))
  /\ exists fd file,
    read_formData sample_request = Returned fd
    /\ formData_get (lit "file") fd = Some (EntryFile file)
    /\ lit "data:image/png;base64,iVBORw=="
       = lit "data:" ++ file_type file ++ lit ";base64,"
         ++ base64 (file_bytes file)
    /\ file_type file <> []
    /\ startsWith (file_type file) (lit "image/") = true
    /\ or_else (file_type file) (lit "image/png") = file_type file.
Proof.
  split; [reflexivity|]. split; [reflexivity|].
  apply (C10_declared_type sample_request); reflexivity.
Defined.

(** A file with an empty declared type is turned down by the type check. *)
Lemma empty_type_rejected fd (file : File) (req : Request) :
  multipart req = true -> read_formData req = Returned fd ->
  formData_get (lit "file") fd = Some (EntryFile file) ->
  file_type file = [] ->
  snd (extractImageDataUrl req) = Returned None.
Proof.
  intros Hm Hr Hg Ht. rewrite (extract_multipart req fd Hm Hr), Hg, Ht. done.
Qed.

Lemma describe_unfold raw :
  describe raw =
  (if decide (slice0 800 (trim (normalize raw)) = []) then fallback
   else slice0 800 (trim (normalize raw))).
Proof.
  unfold describe, or_else, fallback.
  destruct (slice0 800 (trim (normalize raw))); by case_decide.
Qed.

Lemma describe_nonempty raw : describe raw <> [].
Proof.
  rewrite describe_unfold. case_decide; [|done]. by vm_compute.
Qed.

Lemma describe_length raw : (length (describe raw) <= 800)%nat.
Proof.
  rewrite describe_unfold. case_decide.
  - vm_compute. lia.
  - unfold slice0. rewrite length_take. lia.
Qed.

Lemma describe_truncates raw :
  (800 <= length (trim (normalize raw)))%nat ->
  describe raw = take 800 (trim (normalize raw))
  /\ length (describe raw) = 800%nat.
Proof.
  intros H. rewrite describe_unfold. unfold slice0.
  assert (length (take 800 (trim (normalize raw))) = 800%nat) as Hl
    by (rewrite length_take; lia).
  case_decide as He; [rewrite He in Hl; discriminate|]. done.
Qed.

Lemma describe_fallback raw :
  Forall (fun c => is_whitespace c = true) (normalize raw) ->
  describe raw = fallback.
Proof.
  intros H. apply trim_nil_iff in H. rewrite describe_unfold, H. done.
Qed.

Lemma extract_no_model_call req :
  vision_inputs (fst (extractImageDataUrl req)) = []
  /\ speech_inputs (fst (extractImageDataUrl req)) = [].
Proof.
  unfold extractImageDataUrl, bind, try_catch, call, ret.
  repeat case_match; simplify_eq/=; done.
Qed.

Lemma speech_inputs_app t1 t2 :
  speech_inputs (t1 ++ t2) = speech_inputs t1 ++ speech_inputs t2.
Proof. apply omap_app. Qed.

Lemma pipeline_success w resp :
  snd (pipeline w) = Returned resp -> status resp = 200 ->
  exists url r h,
    vision w url = Returned r
    /\ encodeURIComponent (describe (rawContent r)) = Some h
    /\ speech_inputs (fst (pipeline w)) = [describe (rawContent r)]
    /\ headers resp = success_headers h.
Proof.
  unfold pipeline, bind, call, ret, encode_header, throw.
  destruct (extract_no_model_call (request w)) as [_ Hs].
  destruct (extractImageDataUrl (request w)) as [t [[url|]|e]]; simpl in *;
    [|by intros [= <-]|done].
  destruct (negb (truthy url)); simpl; [by intros [= <-]|].
  destruct (vision w url) as [r|] eqn:Hv; simpl; [|done].
  destruct (speech w _) as [ttsRes|]; simpl; [|done].
  destruct (arrayBuffer ttsRes); simpl; [|done].
  destruct (encodeURIComponent _) as [h|] eqn:He; simpl; [|done].
  intros [= <-] _. exists url, r, h.
  rewrite !speech_inputs_app, Hs. done.
Qed.

Lemma pipeline_speech_inputs w :
  Forall (fun d => exists url r,
            vision w url = Returned r /\ d = describe (rawContent r))
         (speech_inputs (fst (pipeline w))).
Proof.
  unfold pipeline, bind, call, ret, encode_header, throw.
  destruct (extract_no_model_call (request w)) as [_ Hs].
  destruct (extractImageDataUrl (request w)) as [t [[url|]|e]]; simpl in *;
    rewrite ?speech_inputs_app, ?Hs; try by constructor.
  destruct (negb (truthy url)); simpl; rewrite ?app_nil_r, ?Hs; [constructor|].
  destruct (vision w url) as [r|] eqn:Hv; simpl;
    rewrite ?speech_inputs_app, ?Hs; [|constructor].
  assert (Forall (fun d => exists url r,
            vision w url = Returned r /\ d = describe (rawContent r))
            [describe (rawContent r)]) as Hd.
  { constructor; [by exists url, r | constructor]. }
  destruct (speech w _) as [ttsRes|]; simpl;
    [|rewrite speech_inputs_app, Hs; exact Hd].
  destruct (arrayBuffer ttsRes); simpl;
    [|rewrite !speech_inputs_app, Hs; exact Hd].
  destruct (encodeURIComponent _) as [h|]; simpl;
    rewrite !speech_inputs_app, Hs; exact Hd.
Qed.

(** The log of the handler is the admission call followed by the log of
    the pipeline, when the request is admitted. *)
Lemma POST_admitted_parts w d :
  protect w = Returned d -> turned_away d = false ->
  fst (POST w) = Protect :: fst (pipeline w)
  /\ forall resp, snd (POST w) = Returned resp -> status resp = 200 ->
       snd (pipeline w) = Returned resp.
Proof.
  intros Hp Ht. rewrite (POST_admitted w d Hp Ht). unfold try_catch.
  destruct (pipeline w) as [t [a|e]]; simpl.
  - done.
  - rewrite app_nil_r. split; [done|]. by intros resp [= <-].
Qed.

Lemma POST_speech_inputs w :
  Forall (fun d => exists url r,
            vision w url = Returned r /\ d = describe (rawContent r))
         (speech_inputs (fst (POST w))).
Proof.
  destruct (protect w) as [d|e] eqn:Hp.
  - destruct (turned_away d) eqn:Ht.
    + destruct (POST_turned_away w d Hp Ht) as [resp [-> _]]. constructor.
    + destruct (POST_admitted_parts w d Hp Ht) as [-> _].
      apply pipeline_speech_inputs.
  - unfold POST, call, bind. rewrite Hp. constructor.
Qed.

Lemma POST_success w resp :
  snd (POST w) = Returned resp -> status resp = 200 ->
  exists url r h,
    vision w url = Returned r
    /\ encodeURIComponent (describe (rawContent r)) = Some h
    /\ speech_inputs (fst (POST w)) = [describe (rawContent r)]
    /\ headers resp = success_headers h.
Proof.
  intros Hr Hs. destruct (protect w) as [d|e] eqn:Hp.
  - destruct (turned_away d) eqn:Ht.
    + destruct (POST_turned_away w d Hp Ht) as [resp' [He Hs']].
      rewrite He in Hr. injection Hr as ->. rewrite Hs in Hs'.
      by destruct (_ && _).
    + destruct (POST_admitted_parts w d Hp Ht) as [Hl Hpipe].
      rewrite Hl.
      change (speech_inputs (Protect :: fst (pipeline w)))
        with (speech_inputs (fst (pipeline w))).
      apply pipeline_success; [by apply Hpipe | done].
  - unfold POST, call, bind in Hr. by rewrite Hp in Hr.
Qed.

Lemma join_space_cons x xs :
  join (lit " ") (x :: xs) = x ++ concat (map (fun y => 32 :: y) xs).
Proof.
  revert x. induction xs as [|y xs IH]; intros x.
  - simpl. by rewrite app_nil_r.
  - change (join (lit " ") (x :: y :: xs))
      with (x ++ [32] ++ join (lit " ") (y :: xs)).
    rewrite IH. done.
Qed.

Lemma spaced_fold (rest : list Part) acc :
  fold_left (fun acc q => acc ++ 32 :: text_of q) rest acc
  = acc ++ concat (map (fun q => 32 :: text_of q) rest).
Proof.
  revert acc. induction rest as [|q rest IH]; intros acc; simpl.
  - by rewrite app_nil_r.
  - rewrite IH, <- app_assoc. done.
Qed.

(** The join of the route is the spaced texts. *)
Lemma join_spaced (parts : list Part) :
  join (lit " ") (map (fun p => default [] (part_text p)) parts)
  = spaced_texts parts.
Proof.
  destruct parts as [|p rest]; [done|].
  change (map (fun p => default [] (part_text p)) (p :: rest))
    with (text_of p :: map text_of rest).
  unfold spaced_texts. by rewrite join_space_cons, spaced_fold, map_map.
Qed.

(** What the route normalizes is the text of the reply. *)
Lemma normalize_reply (r : VisionResponse) :
  normalize (rawContent r) = reply_text r.
Proof.
  unfold rawContent, reply_text. destruct (choices r) as [|c rest]; [done|].
  destruct (message c) as [[s|parts|]|]; simpl; try done.
  apply join_spaced.
Qed.

Lemma describe_trimmed (r : VisionResponse) (t : jsstring) :
  trimmed (reply_text r) t ->
  describe (rawContent r)
  = (if decide (take 800 t = []) then lit "No description available."
     else take 800 t).
Proof.
  intros Ht. rewrite <- normalize_reply in Ht. apply trimmed_trim in Ht.
  by rewrite describe_unfold, Ht.
Qed.

(** C4. For every reply of the vision model, with [t] the text of the
    reply trimmed of whitespace, the description is [t] cut to 800 code
    units, or "No description available." when that is empty: it is the
    fallback when [t] is empty, [t] itself when [t] has at most 800 code
    units, and the first 800 code units of [t] otherwise. Such a [t]
    always exists. So every input of a speech call is such a description,
    is never empty and never longer than 800, and the description header
    of a successful response is its percent-encoding. *)
Theorem C4_description :
  (forall r t,
     trimmed (reply_text r) t ->
     describe (rawContent r)
       = (if decide (take 800 t = []) then lit "No description available."
          else take 800 t)
     /\ (t = [] -> describe (rawContent r) = lit "No description available.")
     /\ (t <> [] -> describe (rawContent r) = take 800 t)
     /\ (t <> [] -> (length t <= 800)%nat -> describe (rawContent r) = t)
     /\ ((800 <= length t)%nat ->
         describe (rawContent r) = take 800 t
         /\ length (describe (rawContent r)) = 800%nat))
  /\ (forall r, exists t, trimmed (reply_text r) t)
  /\ (forall w,
        Forall (fun d => d <> [] /\ (length d <= 800)%nat
                  /\ exists url r t,
                       vision w url = Returned r
                       /\ trimmed (reply_text r) t
                       /\ d = (if decide (take 800 t = [])
                               then lit "No description available."
                               else take 800 t))
               (speech_inputs (fst (POST w)))
        /\ forall resp, snd (POST w) = Returned resp -> status resp = 200 ->
           exists d h,
             speech_inputs (fst (POST w)) = [d]
             /\ header (lit "X-Description-Text") (headers resp) = Some h
             /\ encodeURIComponent d = Some h
             /\ d <> [] /\ (length d <= 800)%nat).
Proof.
  split; [|split].
  - intros r t Ht. pose proof (describe_trimmed r t Ht) as Hd.
    split; [done|]. split; [|split; [|split]].
    + intros ->. by rewrite Hd.
    + intros Hne. rewrite Hd. case_decide as He; [|done].
      destruct t; [done | discriminate He].
    + intros Hne Hlen. rewrite Hd, take_ge by done. clear Hd.
      by case_decide.
    + intros Hlen.
      assert (length (take 800 t) = 800%nat) as Hl
        by (rewrite length_take; lia).
      rewrite Hd. case_decide as He; [by rewrite He in Hl | done].
  - intros r. exists (trim (reply_text r)). apply trim_trimmed.
  - intros w. split.
    + eapply Forall_impl; [apply POST_speech_inputs|].
      intros d [url [r [Hv ->]]]. split; [apply describe_nonempty|].
      split; [apply describe_length|].
      exists url, r, (trim (reply_text r)). split; [done|].
      split; [apply trim_trimmed | apply describe_trimmed, trim_trimmed].
    + intros resp Hr Hs.
      destruct (POST_success w resp Hr Hs) as [url [r [h [Hv [He [Hl Hh]]]]]].
      exists (describe (rawContent r)), h. rewrite Hl, Hh.
      split; [done|]. split; [reflexivity|]. split; [done|].
      split; [apply describe_nonempty | apply describe_length].
Qed.

Lemma C4_description_witness :
  trimmed (reply_text sample_reply) (lit "A dog on a beach.")
  /\ describe (rawContent sample_reply) = lit "A dog on a beach."
  /\ trimmed (reply_text long_response) (repeat 97 1000)
  /\ describe (rawContent long_response) = repeat 97 800
  /\ let w := sample_world (Returned allow) sample_request in
     exists resp, snd (POST w) = Returned resp /\ status resp = 200
     /\ exists d h,
             speech_inputs (fst (POST w)) = [d]
             /\ header (lit "X-Description-Text") (headers resp) = Some h
             /\ encodeURIComponent d = Some h
             /\ d <> [] /\ (length d <= 800)%nat.
Proof.
  destruct C4_description as (Hr & _ & Hw).
  assert (trimmed (reply_text sample_reply) (lit "A dog on a beach.")) as H1.
  { exists (lit "  "), (lit " ").
    split; [reflexivity|]. split; [by repeat constructor|].
    split; [by repeat constructor|]. split.
    - by intros c rest [= <- _].
    - intros front c H. apply (f_equal (@rev Z)) in H.
      rewrite rev_app_distr in H. by injection H as <- _. }
  assert (trimmed (reply_text long_response) (repeat 97 1000)) as H2.
  { exists [32], [32; 10].
    split; [reflexivity|]. split; [by repeat constructor|].
    split; [by repeat constructor|]. split.
    - by intros c rest [= <- _].
    - intros front c H. apply (f_equal (@rev Z)) in H.
      rewrite rev_app_distr in H. by injection H as <- _. }
  split; [exact H1|].
  split.
  { apply (proj1 (proj2 (proj2 (proj2 (Hr sample_reply _ H1))))); [done|].
    vm_compute. lia. }
  split; [exact H2|].
  split.
  { destruct (proj2 (proj2 (proj2 (proj2 (Hr long_response _ H2))))) as [-> _].
    - vm_compute. lia.
    - reflexivity. }
  intros w. eexists. split; [reflexivity|]. split; [reflexivity|].
  apply (proj2 (Hw w)); reflexivity.
Defined.

Lemma join_cons sep x y rest :
  join sep (x :: y :: rest) = x ++ sep ++ join sep (y :: rest).
Proof. reflexivity. Qed.

Lemma join_space_length xs :
  length (join (lit " ") xs)
  = (sum_list (length <$> xs) + (length xs - 1))%nat.
Proof.
  induction xs as [|x xs IH]; [done|].
  destruct xs as [|y rest]; [simpl; lia|].
  rewrite join_cons, !length_app, IH.
  change (length (lit " ")) with 1%nat. simpl. lia.
Qed.

Lemma part_texts_sum (parts : list Part) :
  sum_list (length <$> map (fun p => default [] (part_text p)) parts)
  = sum_list (length <$> omap part_text parts).
Proof.
  induction parts as [|p parts IH]; simpl; [done|].
  destruct (part_text p); simpl; [f_equal|]; exact IH.
Qed.

Lemma part_texts_all (parts : list Part) :
  Forall (fun p => is_Some (part_text p)) parts ->
  map (fun p => default [] (part_text p)) parts = omap part_text parts.
Proof.
  induction 1 as [|p parts [t Ht] _ IH]; simpl; [done|].
  by rewrite Ht, IH.
Qed.

Lemma part_texts_cons (p : Part) (parts : list Part) :
  omap part_text (p :: parts)
  = match part_text p with
    | Some t => t :: omap part_text parts
    | None => omap part_text parts
    end.
Proof. reflexivity. Qed.

Lemma part_texts_le (parts : list Part) :
  (length (omap part_text parts) <= length parts)%nat.
Proof.
  induction parts as [|p parts IH]; [done|].
  rewrite part_texts_cons. destruct (part_text p); cbn [length]; lia.
Qed.

Lemma part_texts_fewer (parts : list Part) :
  ~ Forall (fun p => is_Some (part_text p)) parts ->
  (length (omap part_text parts) < length parts)%nat.
Proof.
  induction parts as [|p parts IH]; [intros H; by destruct H|].
  pose proof (part_texts_le parts) as Hle. intros Hn.
  rewrite part_texts_cons.
  destruct (part_text p) eqn:Hp; cbn [length]; [|lia].
  assert (~ Forall (fun p => is_Some (part_text p)) parts) as Hn'.
  { intros Hall. apply Hn. constructor; [by rewrite Hp | done]. }
  specialize (IH Hn'). lia.
Qed.

(** C5 (as the code has it). The normalized text of a reply of typed parts
    is the parts' texts joined with single spaces, a part without text
    counting as the empty text: it has one separator between every two
    adjacent parts, with or without text. It is the single-space join of
    the text-bearing parts exactly when every part bears text or there is
    at most one part. *)
Theorem C5_parts_joined (parts : list Part) :
  normalize (ContentParts parts) = spaced_texts parts
  /\ (forall r c rest,
        choices r = c :: rest -> message c = Some (ContentParts parts) ->
        normalize (rawContent r) = spaced_texts parts)
  /\ length (normalize (ContentParts parts))
     = (sum_list (length <$> omap part_text parts) + (length parts - 1))%nat
  /\ (normalize (ContentParts parts) = text_bearing_joined parts <->
      Forall (fun p => is_Some (part_text p)) parts
      \/ (length parts <= 1)%nat).
Proof.
  split; [apply join_spaced|]. split.
  { intros r c rest Hc Hm. rewrite normalize_reply. unfold reply_text.
    by rewrite Hc, Hm. }
  unfold normalize, text_bearing_joined. split.
  - by rewrite join_space_length, part_texts_sum, length_map.
  - split.
    + intros Heq.
      destruct (decide (Forall (fun p => is_Some (part_text p)) parts))
        as [Hall|Hsome]; [by left|]. right.
      apply (f_equal length) in Heq.
      rewrite !join_space_length, part_texts_sum, length_map in Heq.
      apply part_texts_fewer in Hsome. lia.
    + intros [Hall | Hlen]; [by rewrite part_texts_all|].
      destruct parts as [|p [|q parts]]; simpl in *; [done| |lia].
      by destruct (part_text p).
Qed.

Lemma C5_parts_joined_witness :
  let parts := [text_part (lit "a"); text_part (lit "b")] in
  Forall (fun p => is_Some (part_text p)) parts
  /\ normalize (ContentParts parts) = text_bearing_joined parts
  /\ normalize (ContentParts mixed_parts) = spaced_texts mixed_parts
  /\ spaced_texts mixed_parts = lit "a  b".
Proof.
  intros parts.
  assert (Forall (fun p => is_Some (part_text p)) parts) as Hall
    by (repeat constructor; by eexists).
  split; [exact Hall|]. split.
  { apply (proj2 (proj2 (proj2 (C5_parts_joined parts)))). left. exact Hall. }
  split; [apply (proj1 (C5_parts_joined mixed_parts)) | reflexivity].
Defined.

(** C5 (as stated) fails when a part without text stands between two
    text parts: it leaves a second separator behind. *)
Lemma C5_textless_part_keeps_separator :
  normalize (ContentParts mixed_parts) = lit "a  b"
  /\ text_bearing_joined mixed_parts = lit "a b"
  /\ normalize (ContentParts mixed_parts) <> text_bearing_joined mixed_parts.
Proof. split; [reflexivity|]. split; [reflexivity|]. by vm_compute. Qed.

Lemma wf_lit s : wf (lit s).
Proof.
  unfold wf, lit. induction s as [|a s IH]; simpl; constructor; [|done].
  pose proof (N_ascii_bounded a). unfold code_unit. lia.
Qed.

Lemma wf_join sep xs : wf sep -> Forall wf xs -> wf (join sep xs).
Proof.
  intros Hsep. induction 1 as [|x xs Hx Hxs IH]; simpl; [constructor|].
  destruct xs; [done|]. apply Forall_app. split; [done|].
  apply Forall_app. by split.
Qed.

Lemma wf_trim s : wf s -> wf (trim s).
Proof.
  intros H. destruct (trim_split s) as [l [r [Hs _]]]. unfold wf in *.
  rewrite Hs in H. apply Forall_app in H as [_ H].
  by apply Forall_app in H as [H _].
Qed.

Lemma describe_wf raw : content_wf raw -> wf (describe raw).
Proof.
  intros H. rewrite describe_unfold. case_decide as He; [apply wf_lit|].
  clear He. unfold slice0. apply Forall_take, wf_trim.
  destruct raw as [s|parts|]; simpl in *; [done| |constructor].
  apply wf_join; [apply wf_lit|]. apply Forall_map.
  eapply Forall_impl; [exact H|]. intros p Hp.
  destruct (part_text p) as [t|] eqn:Ht; simpl; [by apply Hp | constructor].
Qed.

(** C6. A response with status 200 carries exactly the headers
    [Content-Type: audio/mpeg],
    [Content-Disposition: attachment; filename=description.mp3],
    [Cache-Control: no-store] and [X-Description-Text], whose value is the
    percent-encoding of the description that was spoken; that value holds
    only visible ASCII characters, and [decodeURIComponent] gives the
    description back. *)
Theorem C6_success_headers (w : World) (resp : Response) :
  replies_wf w ->
  snd (POST w) = Returned resp -> status resp = 200 ->
  exists d h,
    speech_inputs (fst (POST w)) = [d]
    /\ headers resp = success_headers h
    /\ encodeURIComponent d = Some h
    /\ Forall header_safe h
    /\ decodeURIComponent h = Some d.
Proof.
  intros Hwf Hr Hs.
  destruct (POST_success w resp Hr Hs) as [url [r [h [Hv [He [Hl Hh]]]]]].
  exists (describe (rawContent r)), h.
  pose proof (describe_wf _ (Hwf url r Hv)) as Hd.
  repeat (split; [done|]).
  split; [by apply (encode_header_safe (describe (rawContent r)))
         | by apply encode_decode].
Qed.

Lemma sample_replies_wf p req : replies_wf (sample_world p req).
Proof.
  intros url r [= <-]. apply (wf_lit "  A dog on a beach. ").
Qed.

Lemma C6_success_headers_witness :
  let w := sample_world (Returned allow) sample_request in
  replies_wf w
  /\ exists resp, snd (POST w) = Returned resp /\ status resp = 200
  /\ exists d h,
    speech_inputs (fst (POST w)) = [d]
    /\ headers resp = success_headers h
    /\ encodeURIComponent d = Some h
    /\ Forall header_safe h
    /\ decodeURIComponent h = Some d.
Proof.
  intros w. split; [apply sample_replies_wf|].
  eexists. split; [reflexivity|]. split; [reflexivity|].
  apply (C6_success_headers w); [apply sample_replies_wf | reflexivity..].
Defined.

(** The encoding holds for every string, not only for descriptions. *)
Lemma description_header_round_trip (d h : jsstring) :
  wf d -> encodeURIComponent d = Some h ->
  Forall header_safe h /\ decodeURIComponent h = Some d.
Proof.
  intros Hd He. split; [by apply (encode_header_safe d) | by apply encode_decode].
Qed.

(** Cutting at 800 code units can split a surrogate pair; the header then
    cannot be encoded, and the request ends in 500 after both model
    calls. *)
Lemma split_pair_gives_500 :
  let w := {| protect := Returned allow; request := sample_request;
              vision := fun _ => Returned split_pair_reply;
              speech := fun _ =>
                Returned {| arrayBuffer := Returned [73; 68; 51] |} |} in
  describe (rawContent split_pair_reply) = repeat 97 799 ++ [55357]
  /\ encodeURIComponent (describe (rawContent split_pair_reply)) = None
  /\ snd (POST w) = Returned internal_error
  /\ speech_inputs (fst (POST w)) = [describe (rawContent split_pair_reply)].
Proof. by vm_compute. Qed.

Lemma multipart_url_shape (req : Request) (url : jsstring) :
  multipart req = true ->
  snd (extractImageDataUrl req) = Returned (Some url) ->
  exists file,
    url = lit "data:" ++ file_type file ++ lit ";base64,"
          ++ base64 (file_bytes file)
    /\ startsWith (file_type file) (lit "image/") = true.
Proof.
  intros Hm. destruct (read_formData req) as [fd|e] eqn:Hr.
  - rewrite (extract_multipart req fd Hm Hr). simpl. intros H.
    destruct (formData_get _ fd) as [[s|file]|] eqn:Hg; try done.
    destruct (startsWith (file_type file) _) eqn:Hs; [|done].
    destruct (file_size file <=? _); [|done]. simpl in H. injection H as <-.
    destruct (declared_type_kept file Hs) as [He Hne].
    exists file. by rewrite He.
  - unfold extractImageDataUrl. unfold multipart in Hm. rewrite Hm.
    unfold bind, call. by rewrite Hr.
Qed.

End RouteFacts.

(** ** The page *)
Section PageFacts.
Import Page.

#[local] Arguments lit : simpl never.
#[local] Arguments startsWith : simpl never.

Lemma handleFileChange_clears_input fetch st :
  input_files st <> [] -> input_files (handleFileChange fetch st) = [].
Proof.
  unfold handleFileChange. destruct (input_files st) as [|file fs]; [done|].
  intros _. simpl.
  destruct (negb (startsWith _ _)); [done|].
  destruct (_ >? _); [done|].
  by destruct (try_upload _ _) as [st' [e|]].
Qed.

Lemma handleFileChange_no_file fetch st :
  input_files st = [] -> input_files (handleFileChange fetch st) = [].
Proof.
  unfold handleFileChange. intros H. rewrite H. simpl.
  unfold revokePreviousAudioUrl. by destruct (audioObjectUrlRef st).
Qed.

Lemma handleFileChange_rejects fetch st file fs :
  input_files st = file :: fs -> passes_validation file = false ->
  status (handleFileChange fetch st) = error
  /\ is_Some (errorMessage (handleFileChange fetch st)).
Proof.
  unfold handleFileChange, passes_validation. intros -> Hv. simpl.
  destruct (startsWith _ _); simpl in *; [|by split].
  apply negb_false_iff in Hv.
  unfold file_size, Route.file_size, file_size in *. rewrite Hv. by split.
Qed.

(** C9. After every file selection the input is empty, whatever became of
    the attempt: a file that fails validation, an upload that fails, an
    upload that succeeds. So picking the same file again changes the input
    and fires the handler again, and a file that fails validation is
    rejected again. *)
Theorem C9_input_cleared :
  (forall fs fetch st, input_files (step (SelectFiles fs fetch) st) = [])
  /\ (forall file fs fetch st,
        fires_change (file :: fs) (step (SelectFiles (file :: fs) fetch) st)
        = true)
  /\ (forall file fetch1 fetch2 st,
        passes_validation file = false ->
        let st1 := step (SelectFiles [file] fetch1) st in
        let st2 := step (SelectFiles [file] fetch2) st1 in
        status st1 = error /\ status st2 = error
        /\ is_Some (errorMessage st2)).
Proof.
  assert (forall fs fetch st, input_files (step (SelectFiles fs fetch) st) = [])
    as Hclear.
  { intros fs fetch st. simpl. destruct fs as [|file fs].
    - by apply handleFileChange_no_file.
    - by apply handleFileChange_clears_input. }
  split; [exact Hclear|]. split.
  - intros file fs fetch st. unfold fires_change. by rewrite Hclear.
  - intros file fetch1 fetch2 st Hv st1 st2. subst st1 st2. simpl.
    split; [|split].
    + by eapply handleFileChange_rejects.
    + by eapply handleFileChange_rejects.
    + by eapply handleFileChange_rejects.
Qed.

Lemma C9_input_cleared_witness :
  passes_validation text_file = false
  /\ let st1 := step (SelectFiles [text_file] ok_fetch) initial in
     let st2 := step (SelectFiles [text_file] ok_fetch) st1 in
     status st1 = error /\ status st2 = error /\ is_Some (errorMessage st2).
Proof.
  split; [reflexivity|].
  apply (proj2 (proj2 C9_input_cleared) text_file ok_fetch ok_fetch initial).
  reflexivity.
Defined.

Lemma revoke_tracked st :
  blob_urls st = tracked st ->
  blob_urls (revokePreviousAudioUrl st) = ∅
  /\ audioObjectUrlRef (revokePreviousAudioUrl st) = None.
Proof.
  unfold tracked, revokePreviousAudioUrl.
  destruct (audioObjectUrlRef st) as [u|] eqn:Hu; simpl; [|by rewrite Hu].
  intros ->. split; [apply difference_diag_L | done].
Qed.

Lemma try_upload_tracked fetch st :
  blob_urls st = ∅ -> audioObjectUrlRef st = None ->
  blob_urls (try_upload fetch st).1 = tracked (try_upload fetch st).1.
Proof.
  intros Hb Hr. unfold try_upload, tracked.
  destruct fetch as [e|response]; simpl; [by rewrite Hb, Hr|].
  destruct (negb (ok response)); simpl; [by rewrite Hb, Hr|].
  destruct (blob response); simpl; [by rewrite Hb, Hr|].
  unfold revokePreviousAudioUrl. simpl. rewrite Hr. simpl.
  assert (blob_urls st ∪ {[next_url st]} = {[next_url st]}) as He
    by (rewrite Hb; apply union_empty_l_L).
  destruct (description_header response) as [h|]; simpl; [|done].
  destruct (negb (truthy h)); simpl; [done|].
  destruct (decodeURIComponent h) as [decoded|]; simpl; [|done].
  by destruct (truthy decoded).
Qed.

Lemma handleFileChange_tracked fetch st :
  blob_urls st = tracked st ->
  blob_urls (handleFileChange fetch st) = tracked (handleFileChange fetch st).
Proof.
  intros Hinv. destruct (revoke_tracked st Hinv) as [Hb Hr].
  unfold handleFileChange.
  destruct (head (input_files st)) as [file|]; simpl;
    [|unfold tracked; simpl; by rewrite Hb, Hr].
  destruct (negb (startsWith _ _)); [unfold tracked; simpl; by rewrite Hb, Hr|].
  destruct (_ >? _); [unfold tracked; simpl; by rewrite Hb, Hr|].
  pose proof (try_upload_tracked fetch
                (setStatus uploading
                   (setErrorMessage None
                      (setDescriptionText None
                         (setAudioUrl None (revokePreviousAudioUrl st)))))
                Hb Hr) as Ht.
  destruct (try_upload _ _) as [st' [e|]]; simpl in *; [|exact Ht].
  destruct (revoke_tracked st' Ht) as [Hb' Hr'].
  unfold tracked. simpl. by rewrite Hb', Hr'.
Qed.

(** In a sequential run the browser holds, between the user's actions,
    exactly the handle the page has a reference to, so at most one. *)
Lemma live_handle_tracked actions :
  blob_urls (run actions initial) = tracked (run actions initial).
Proof.
  unfold run. generalize initial (eq_refl : blob_urls initial = tracked initial).
  induction actions as [|a actions IH]; intros st Hst; simpl; [done|].
  apply IH. destruct a as [fs fetch|]; simpl; [|exact Hst].
  by apply handleFileChange_tracked.
Qed.

(** In a sequential run at most one object URL is live between the
    user's actions. *)
Lemma at_most_one_live actions :
  (size (blob_urls (run actions initial)) <= 1)%nat.
Proof.
  rewrite live_handle_tracked. unfold tracked.
  destruct (audioObjectUrlRef _); [rewrite size_singleton; lia|].
  rewrite size_empty. lia.
Qed.

(** C7 (what the code does on Reset). After a successful upload, the
    Reset button clears the page's [audioUrl] but revokes nothing: the
    object URL of the upload is still in the browser's store, and stays
    there until the next file selection. *)
Theorem C7_reset_keeps_handle_live :
  let uploaded := run [SelectFiles [sample_file] ok_fetch] initial in
  let st := run [SelectFiles [sample_file] ok_fetch; ClickReset] initial in
  blob_urls uploaded = {[1%positive]}
  /\ audioUrl st = None
  /\ status st = idle
  /\ audioObjectUrlRef st = Some 1%positive
  /\ blob_urls st = {[1%positive]}
  /\ blob_urls (resetState uploaded) = blob_urls uploaded.
Proof.
  assert (blob_urls (run [SelectFiles [sample_file] ok_fetch] initial)
          = {[1%positive]}) as H.
  { rewrite live_handle_tracked. reflexivity. }
  simpl. split; [exact H|]. split; [reflexivity|]. split; [reflexivity|].
  split; [reflexivity|]. split; [exact H | reflexivity].
Qed.

End PageFacts.

(** ** The rate limit *)
Section TokenBucketFacts.
Import Arcjet Route TokenBucket.

#[local] Arguments lit : simpl never.







(** A seventh request after the interval has passed is allowed again. *)
Lemma refill_after_interval :
  verdicts options requested [0; 1; 2; 3; 4; 5; 60] full_since_0
  = [true; true; true; true; true; false; true].
Proof. reflexivity. Qed.

End TokenBucketFacts.

(** ** Runs of the handler *)
Section RouteRuns.
Import Arcjet Route.

#[local] Arguments lit : simpl never.
#[local] Arguments startsWith : simpl never.
#[local] Arguments base64 : simpl never.
#[local] Arguments describe : simpl never.

(** The extractor reads the body once: as form data when the request is
    declared multipart, as JSON otherwise, never both. *)
Theorem extract_reads_body_once (req : Request) :
  fst (extractImageDataUrl req)
  = if multipart req then [ReadFormData] else [ReadJson].
Proof.
  destruct (multipart req) eqn:Hm.
  - destruct (read_formData req) as [fd|e] eqn:Hr.
    + by rewrite (extract_multipart req fd Hm Hr).
    + unfold extractImageDataUrl. unfold multipart in Hm. rewrite Hm.
      unfold bind, call. by rewrite Hr.
  - by rewrite (extract_json req Hm).
Qed.

Lemma extract_url_prefix (req : Request) (url : jsstring) :
  snd (extractImageDataUrl req) = Returned (Some url) ->
  startsWith url (lit "data:image") = true /\ truthy url = true.
Proof.
  intros H.
  assert (startsWith url (lit "data:image") = true) as Hs.
  { destruct (multipart req) eqn:Hm.
    - destruct (multipart_url_shape req url Hm H) as [file [-> Ht]].
      apply startsWith_prefix in Ht as [t ->].
      apply startsWith_prefix. by eexists ([47] ++ t ++ _ ++ _).
    - rewrite (extract_json req Hm) in H. simpl in H.
      destruct (read_json req) as [j|e]; [|done].
      destruct (get_property _ j) as [[| | |s| |]|]; try done.
      destruct (startsWith s _) eqn:Hs; [|done]. by injection H as <-. }
  split; [done|]. apply startsWith_nonempty in Hs; [|done].
  by destruct url.
Qed.

(** Whatever the path, a URL that the extractor returns starts with
    [data:image]; in particular it is never the empty string. *)
Theorem extract_data_image (req : Request) (url : jsstring) :
  snd (extractImageDataUrl req) = Returned (Some url) ->
  startsWith url (lit "data:image") = true /\ truthy url = true.
Proof. apply extract_url_prefix. Qed.

Lemma extract_data_image_witness :
  snd (extractImageDataUrl sample_request)
  = Returned (Some (lit "data:image/png;base64,iVBORw=="))
  /\ startsWith (lit "data:image/png;base64,iVBORw==") (lit "data:image") = true
  /\ truthy (lit "data:image/png;base64,iVBORw==") = true.
Proof.
  split; [reflexivity|].
  apply (extract_data_image sample_request). reflexivity.
Defined.

(** The pipeline, case by case on what the outside returns. *)
Lemma pipeline_run w :
  pipeline w =
  match extractImageDataUrl (request w) with
  | (t, Thrown e) => (t, Thrown e)
  | (t, Returned None) => (t, Returned invalid_image)
  | (t, Returned (Some url)) =>
      match vision w url with
      | Thrown e => (t ++ [VisionCall url], Thrown e)
      | Returned r =>
          let d := describe (rawContent r) in
          let log := t ++ [VisionCall url; SpeechCall d] in
          match speech w d with
          | Thrown e => (log, Thrown e)
          | Returned tts =>
              match arrayBuffer tts with
              | Thrown e => (log, Thrown e)
              | Returned audio =>
                  match encodeURIComponent d with
                  | None => (log, Thrown URIError)
                  | Some h => (log, Returned (success h audio))
                  end
              end
          end
      end
  end.
Proof.
  unfold pipeline, bind, call, ret, encode_header, throw.
  pose proof (extract_url_prefix (request w)) as Hurl.
  destruct (extractImageDataUrl (request w)) as [t [[url|]|e]]; simpl in *;
    [|by rewrite app_nil_r|done].
  destruct (Hurl url eq_refl) as [_ ->]. simpl.
  destruct (vision w url) as [r|e]; simpl; [|done].
  destruct (speech w _) as [tts|e]; simpl; [|done].
  destruct (arrayBuffer tts) as [audio|e]; simpl; [|done].
  by destruct (encodeURIComponent _).
Qed.

(** The log of a whole run. *)
Lemma POST_log w :
  fst (POST w) =
  match protect w with
  | Returned d =>
      if turned_away d then [Protect] else Protect :: fst (pipeline w)
  | Thrown _ => [Protect]
  end.
Proof.
  destruct (protect w) as [d|e] eqn:Hp.
  - destruct (turned_away d) eqn:Ht.
    + by destruct (POST_turned_away w d Hp Ht) as [resp [-> _]].
    + by destruct (POST_admitted_parts w d Hp Ht) as [-> _].
  - unfold POST, call, bind. by rewrite Hp.
Qed.

(** In one run each model is called at most once, the vision model with
    the extracted URL, the speech model only after the vision model has
    returned and with the description of its reply. *)
Theorem model_calls_once (w : World) :
  exists pre calls,
    fst (POST w) = pre ++ calls
    /\ vision_inputs pre = [] /\ speech_inputs pre = []
    /\ (calls = []
        \/ (exists url,
              snd (extractImageDataUrl (request w)) = Returned (Some url)
              /\ exists e, vision w url = Thrown e
              /\ calls = [VisionCall url])
        \/ (exists url r,
              snd (extractImageDataUrl (request w)) = Returned (Some url)
              /\ vision w url = Returned r
              /\ calls = [VisionCall url; SpeechCall (describe (rawContent r))])).
Proof.
  rewrite POST_log. destruct (protect w) as [d|e];
    [|exists [Protect], []; by rewrite app_nil_r; auto].
  destruct (turned_away d);
    [exists [Protect], []; by rewrite app_nil_r; auto|].
  rewrite pipeline_run.
  destruct (extract_no_model_call (request w)) as [Hv Hs].
  destruct (extractImageDataUrl (request w)) as [t [[url|]|e]]; simpl in *;
    [|exists (Protect :: t), []; by rewrite app_nil_r; auto..].
  destruct (vision w url) as [r|e] eqn:Hvis; simpl.
  - exists (Protect :: t), [VisionCall url; SpeechCall (describe (rawContent r))].
    split.
    { destruct (speech w _) as [tts|]; [|done].
      destruct (arrayBuffer tts); [|done].
      by destruct (encodeURIComponent _). }
    split; [done|]. split; [done|]. right. right. by exists url, r.
  - exists (Protect :: t), [VisionCall url].
    split; [done|]. split; [done|]. split; [done|]. right. left.
    exists url. split; [done|]. by exists e.
Qed.

(** When the vision call fails, the speech model is not called and the
    answer is 500; when the speech call or the reading of its audio fails,
    the answer is 500 as well. *)
Theorem upstream_failure_gives_500 (w : World) (d : Decision) (url : jsstring) :
  protect w = Returned d -> turned_away d = false ->
  snd (extractImageDataUrl (request w)) = Returned (Some url) ->
  (forall e, vision w url = Thrown e ->
     snd (POST w) = Returned internal_error
     /\ speech_inputs (fst (POST w)) = [])
  /\ (forall r e, vision w url = Returned r ->
        speech w (describe (rawContent r)) = Thrown e ->
        snd (POST w) = Returned internal_error)
  /\ (forall r tts e, vision w url = Returned r ->
        speech w (describe (rawContent r)) = Returned tts ->
        arrayBuffer tts = Thrown e ->
        snd (POST w) = Returned internal_error).
Proof.
  intros Hp Ht Hx. rewrite POST_log, (POST_admitted w d Hp Ht), Hp, Ht.
  rewrite pipeline_run.
  destruct (extract_no_model_call (request w)) as [_ Hs].
  destruct (extractImageDataUrl (request w)) as [t [[url'|]|e]];
    simpl in *; try done.
  injection Hx as ->. split; [|split].
  - intros e ->. simpl. by rewrite speech_inputs_app, Hs.
  - by intros r e -> ->.
  - by intros r tts e -> -> ->.
Qed.

Lemma upstream_failure_gives_500_witness :
  protect vision_down = Returned allow
  /\ turned_away allow = false
  /\ vision vision_down (lit "data:image/png;base64,iVBORw==") = Thrown APIError
  /\ snd (POST vision_down) = Returned internal_error
  /\ speech_inputs (fst (POST vision_down)) = [].
Proof.
  do 3 (split; [reflexivity|]).
  apply (proj1 (upstream_failure_gives_500 vision_down allow
                  (lit "data:image/png;base64,iVBORw==")
                  eq_refl eq_refl eq_refl) APIError).
  reflexivity.
Defined.

Lemma POST_result w d :
  protect w = Returned d ->
  snd (POST w) =
  if turned_away d then
    Returned (if isDenied d && isRateLimit (reason d)
              then json_response (lit "Too Many Requests") 429
              else if isDenied d && isBot (reason d)
              then json_response (lit "No bots allowed") 403
              else forbidden)
  else
    match snd (pipeline w) with
    | Returned resp => Returned resp
    | Thrown _ => Returned internal_error
    end.
Proof.
  intros Hp. destruct (turned_away d) eqn:Ht.
  - unfold turned_away in Ht. unfold POST, call. rewrite Hp. simpl.
    destruct (isDenied d); simpl in *.
    + destruct (isRateLimit (reason d)); [done|]. by destruct (isBot (reason d)).
    + destruct (ip_isHosting d); simpl in *; [done|]. by rewrite Ht.
  - rewrite (POST_admitted w d Hp Ht). unfold try_catch.
    by destruct (pipeline w) as [t [a|e]].
Qed.

(** The handler answers 429 for a rate-limit denial and for nothing else,
    and 403 exactly for the other requests that admission turns away. *)
Theorem rejection_statuses (w : World) (d : Decision) (resp : Response) :
  protect w = Returned d -> snd (POST w) = Returned resp ->
  (status resp = 429 <-> isDenied d = true /\ isRateLimit (reason d) = true)
  /\ (status resp = 403 <->
      turned_away d = true /\ isDenied d && isRateLimit (reason d) = false).
Proof.
  intros Hp Hr. rewrite (POST_result w d Hp) in Hr.
  destruct (turned_away d) eqn:Ht.
  - injection Hr as <-. rewrite <- andb_true_iff.
    destruct (isDenied d && isRateLimit (reason d)); simpl.
    + split; split; try done. by intros [_ ?].
    + destruct (isDenied d && isBot (reason d)); simpl; split; split; done.
  - pose proof (pipeline_status w) as Hs.
    assert (status resp = 200 \/ status resp = 400 \/ status resp = 500) as Hst.
    { destruct (snd (pipeline w)) as [a|e]; injection Hr as <-.
      - destruct (Hs a eq_refl); auto.
      - auto. }
    split; split.
    + intros H. rewrite H in Hst. by destruct Hst as [|[|]].
    + intros [H _]. unfold turned_away in Ht. by rewrite H in Ht.
    + intros H. rewrite H in Hst. by destruct Hst as [|[|]].
    + by intros [? _].
Qed.

Lemma rejection_statuses_witness :
  let w := sample_world (Returned (deny BOT)) sample_request in
  protect w = Returned (deny BOT)
  /\ snd (POST w) = Returned (json_response (lit "No bots allowed") 403)
  /\ turned_away (deny BOT) = true
  /\ isDenied (deny BOT) && isRateLimit (reason (deny BOT)) = false.
Proof.
  intros w. do 2 (split; [reflexivity|]).
  apply (proj2 (rejection_statuses w (deny BOT) _ eq_refl eq_refl)).
  reflexivity.
Defined.

(** The handler answers 400 exactly when the request is admitted and the
    extractor returns no image. *)
Theorem status_400_iff_no_image (w : World) (d : Decision) (resp : Response) :
  protect w = Returned d -> snd (POST w) = Returned resp ->
  (status resp = 400 <->
   turned_away d = false
   /\ snd (extractImageDataUrl (request w)) = Returned None).
Proof.
  intros Hp Hr. rewrite (POST_result w d Hp) in Hr.
  destruct (turned_away d) eqn:Ht.
  - injection Hr as <-. split; [|by intros [? _]].
    destruct (_ && _); [done|]. by destruct (_ && _).
  - rewrite pipeline_run in Hr.
    destruct (extractImageDataUrl (request w)) as [t [[url|]|e]]; simpl in *.
    + assert (status resp <> 400) as Hne.
      { destruct (vision w url) as [r|]; simpl in Hr; [|by injection Hr as <-].
        destruct (speech w _) as [tts|]; simpl in Hr; [|by injection Hr as <-].
        destruct (arrayBuffer tts); simpl in Hr; [|by injection Hr as <-].
        destruct (encodeURIComponent _); simpl in Hr; by injection Hr as <-. }
      split; [done | by intros [_ ?]].
    + injection Hr as <-. by split.
    + injection Hr as <-. split; [done | by intros [_ ?]].
Qed.

Lemma status_400_iff_no_image_witness :
  let w := sample_world (Returned allow) (json_request (lit "not-a-data-url")) in
  protect w = Returned allow
  /\ snd (POST w) = Returned invalid_image
  /\ status invalid_image = 400.
Proof.
  intros w. do 2 (split; [reflexivity|]).
  apply (proj2 (status_400_iff_no_image w allow invalid_image eq_refl eq_refl)).
  split; reflexivity.
Defined.

(** The handler answers 500 exactly when the request is admitted and
    something in the pipeline throws. *)
Theorem status_500_iff_pipeline_throws (w : World) (d : Decision)
    (resp : Response) :
  protect w = Returned d -> snd (POST w) = Returned resp ->
  (status resp = 500 <->
   turned_away d = false /\ exists e, snd (pipeline w) = Thrown e).
Proof.
  intros Hp Hr. rewrite (POST_result w d Hp) in Hr.
  destruct (turned_away d) eqn:Ht.
  - injection Hr as <-. split; [|by intros [? _]].
    destruct (_ && _); [done|]. by destruct (_ && _).
  - pose proof (pipeline_status w) as Hs.
    destruct (snd (pipeline w)) as [a|e]; injection Hr as <-.
    + split; [|by intros [_ [e ?]]].
      intros H. destruct (Hs a eq_refl); congruence.
    + split; [|done]. intros _. split; [done | by exists e].
Qed.

Lemma status_500_iff_pipeline_throws_witness :
  protect vision_down = Returned allow
  /\ snd (POST vision_down) = Returned internal_error
  /\ turned_away allow = false
  /\ exists e, snd (pipeline vision_down) = Thrown e.
Proof.
  do 2 (split; [reflexivity|]).
  apply (proj1 (status_500_iff_pipeline_throws vision_down allow
                  internal_error eq_refl eq_refl)).
  reflexivity.
Defined.

(** A response with status 200 is the audio that the speech provider
    returned for the description, byte for byte, under the four headers. *)
Theorem success_body_is_audio (w : World) (resp : Response) :
  snd (POST w) = Returned resp -> status resp = 200 ->
  exists url r tts audio h,
    snd (extractImageDataUrl (request w)) = Returned (Some url)
    /\ vision w url = Returned r
    /\ speech w (describe (rawContent r)) = Returned tts
    /\ arrayBuffer tts = Returned audio
    /\ encodeURIComponent (describe (rawContent r)) = Some h
    /\ resp = success h audio.
Proof.
  intros Hr Hs. destruct (protect w) as [d|e] eqn:Hp;
    [|unfold POST, call, bind in Hr; by rewrite Hp in Hr].
  rewrite (POST_result w d Hp) in Hr. destruct (turned_away d).
  { injection Hr as <-. destruct (_ && _); [done|]. by destruct (_ && _). }
  rewrite pipeline_run in Hr.
  destruct (extractImageDataUrl (request w)) as [t [[url|]|e]]; simpl in *;
    [|by injection Hr as <-..].
  destruct (vision w url) as [r|] eqn:Hv; simpl in Hr; [|by injection Hr as <-].
  destruct (speech w _) as [tts|] eqn:Hsp; simpl in Hr; [|by injection Hr as <-].
  destruct (arrayBuffer tts) as [audio|] eqn:Ha; simpl in Hr;
    [|by injection Hr as <-].
  destruct (encodeURIComponent _) as [h|] eqn:He; simpl in Hr;
    [|by injection Hr as <-].
  injection Hr as <-. by exists url, r, tts, audio, h.
Qed.

Lemma success_body_is_audio_witness :
  let w := sample_world (Returned allow) sample_request in
  exists resp, snd (POST w) = Returned resp /\ status resp = 200
  /\ body resp = Bytes [73; 68; 51].
Proof.
  intros w. eexists. split; [reflexivity|]. split; [reflexivity|].
  destruct (success_body_is_audio w _ eq_refl eq_refl)
    as (url & r & tts & audio & h & _ & _ & _ & _ & _ & _).
  reflexivity.
Defined.

(** A JSON payload that starts with [data:image] reaches the vision model
    unchanged, whatever follows the prefix and however long it is: the
    10 MiB limit is applied to multipart files only. *)
Theorem json_payload_not_size_limited (w : World) (d : Decision) (j : JSON)
    (payload : jsstring) :
  protect w = Returned d -> turned_away d = false ->
  multipart (request w) = false ->
  read_json (request w) = Returned j ->
  get_property (lit "imageBase64") j
    = Some (JString (lit "data:image" ++ payload)) ->
  vision_inputs (fst (POST w)) = [lit "data:image" ++ payload].
Proof.
  intros Hp Ht Hm Hj Hg. rewrite POST_log, Hp, Ht, pipeline_run.
  rewrite (extract_json _ Hm), Hj, Hg.
  assert (startsWith (lit "data:image" ++ payload) (lit "data:image") = true)
    as -> by (apply startsWith_prefix; by exists payload).
  destruct (vision w _) as [r|]; simpl; [|done].
  destruct (speech w _) as [tts|]; [|done].
  destruct (arrayBuffer tts); [|done].
  by destruct (encodeURIComponent _).
Qed.

Lemma json_payload_not_size_limited_witness :
  let payload := lit "/png;base64," ++ repeat 65 4096 in
  let w := sample_world (Returned allow)
             (json_request (lit "data:image" ++ payload)) in
  vision_inputs (fst (POST w)) = [lit "data:image" ++ payload].
Proof.
  intros payload w.
  apply (json_payload_not_size_limited w allow
           (JObject [(lit "imageBase64", JString (lit "data:image" ++ payload))])
           payload); reflexivity.
Defined.

Lemma describe_Forall (P : Z -> Prop) raw :
  Forall P fallback -> Forall P (normalize raw) -> Forall P (describe raw).
Proof.
  intros Hf Hn. rewrite describe_unfold. case_decide as He; [done|]. clear He.
  unfold slice0. apply Forall_take.
  destruct (trim_split (normalize raw)) as [l [r [Hs _]]].
  rewrite Hs in Hn. apply Forall_app in Hn as [_ Hn].
  by apply Forall_app in Hn as [Hn _].
Qed.

(** When the handler succeeds: for an admitted request with an image, if
    both providers return and the reply holds no surrogate code unit, the
    answer is 200 with the provider's audio. *)
Theorem success_conditions (w : World) (d : Decision) (url : jsstring)
    (r : VisionResponse) (tts : SpeechResponse) (audio : list Z) :
  protect w = Returned d -> turned_away d = false ->
  snd (extractImageDataUrl (request w)) = Returned (Some url) ->
  vision w url = Returned r ->
  Forall (fun c => is_lead c = false /\ is_trail c = false)
         (normalize (rawContent r)) ->
  speech w (describe (rawContent r)) = Returned tts ->
  arrayBuffer tts = Returned audio ->
  exists h, snd (POST w) = Returned (success h audio)
            /\ encodeURIComponent (describe (rawContent r)) = Some h.
Proof.
  intros Hp Ht Hx Hv Hn Hsp Ha.
  destruct (encode_total (describe (rawContent r))) as [h Hh].
  { apply describe_Forall; [|done]. by repeat constructor. }
  exists h. split; [|done].
  rewrite (POST_result w d Hp), Ht, pipeline_run.
  destruct (extractImageDataUrl (request w)) as [t [[url'|]|e]];
    simpl in *; try done.
  injection Hx as ->. by rewrite Hv, Hsp, Ha, Hh.
Qed.

Lemma success_conditions_witness :
  let w := sample_world (Returned allow) sample_request in
  exists h, snd (POST w) = Returned (success h [73; 68; 51]).
Proof.
  intros w.
  destruct (success_conditions w allow (lit "data:image/png;base64,iVBORw==")
              sample_reply {| arrayBuffer := Returned [73; 68; 51] |}
              [73; 68; 51] eq_refl eq_refl eq_refl eq_refl)
    as [h [Hh _]]; [by repeat constructor | reflexivity | reflexivity |].
  by exists h.
Defined.

Lemma description_header_round_trip_witness :
  wf [233; 8364; 55357; 56374; 10]
  /\ encodeURIComponent [233; 8364; 55357; 56374; 10]
     = Some (lit "%C3%A9%E2%82%AC%F0%9F%90%B6%0A")
  /\ Forall header_safe (lit "%C3%A9%E2%82%AC%F0%9F%90%B6%0A")
  /\ decodeURIComponent (lit "%C3%A9%E2%82%AC%F0%9F%90%B6%0A")
     = Some [233; 8364; 55357; 56374; 10].
Proof.
  assert (wf [233; 8364; 55357; 56374; 10]) as Hwf
    by (repeat constructor; unfold code_unit; lia).
  split; [exact Hwf|]. split; [reflexivity|].
  apply (description_header_round_trip [233; 8364; 55357; 56374; 10]);
    [exact Hwf | reflexivity].
Defined.

Lemma encode_trailing_lead_bounded (n : nat) :
  forall front c, (length front <= n)%nat -> is_lead c = true ->
    encodeURIComponent (front ++ [c]) = None.
Proof.
  assert (forall c, is_lead c = true ->
            unescaped c = false /\ is_trail c = false) as Hlead.
  { intros c. unfold is_lead, is_trail, unescaped, in_range. intros H.
    apply andb_true_iff in H as [H1 H2].
    apply Z.leb_le in H1. apply Z.leb_le in H2.
    split;
      repeat match goal with
      | |- context [?a <=? ?b] => destruct (Z.leb_spec a b); try lia
      | |- context [?a =? ?b] => destruct (Z.eqb_spec a b); try lia
      end; done. }
  induction n as [|n IH]; intros front c Hlen Hc;
    destruct (Hlead c Hc) as [Hu Ht].
  { destruct front; [|simpl in Hlen; lia]. simpl. by rewrite Hu, Hc. }
  destruct front as [|x front]; [simpl; by rewrite Hu, Hc|].
  simpl in Hlen. change ((x :: front) ++ [c]) with (x :: (front ++ [c])).
  cbn [encodeURIComponent].
  destruct (unescaped x); [by rewrite IH by (done || lia)|].
  destruct (is_lead x).
  - destruct front as [|y front']; [simpl; by rewrite Ht|].
    change ((y :: front') ++ [c]) with (y :: (front' ++ [c])). cbv beta iota.
    destruct (is_trail y); [|done].
    rewrite IH; [done | simpl in Hlen; lia | done].
  - destruct (is_trail x); [done|]. by rewrite IH by (done || lia).
Qed.

(** When the cut at 800 code units falls inside a surrogate pair, so that
    the description ends with a lone lead surrogate, the header cannot be
    encoded: the request ends in 500, after the speech model was called. *)
Theorem cut_surrogate_pair_gives_500 (w : World) (d : Decision)
    (url : jsstring) (r : VisionResponse) (front : jsstring) (c : Z) :
  protect w = Returned d -> turned_away d = false ->
  snd (extractImageDataUrl (request w)) = Returned (Some url) ->
  vision w url = Returned r ->
  slice0 800 (trim (normalize (rawContent r))) = front ++ [c] ->
  is_lead c = true ->
  describe (rawContent r) = front ++ [c]
  /\ encodeURIComponent (describe (rawContent r)) = None
  /\ snd (POST w) = Returned internal_error
  /\ speech_inputs (fst (POST w)) = [describe (rawContent r)].
Proof.
  intros Hp Ht Hx Hv Hcut Hc.
  assert (describe (rawContent r) = front ++ [c]) as Hd.
  { rewrite describe_unfold, Hcut. case_decide as He; [|done].
    by destruct front. }
  assert (encodeURIComponent (describe (rawContent r)) = None) as He.
  { rewrite Hd. by apply (encode_trailing_lead_bounded (length front)). }
  split; [done|]. split; [done|].
  rewrite POST_log, (POST_result w d Hp), Hp, Ht, pipeline_run.
  destruct (extract_no_model_call (request w)) as [_ Hs].
  destruct (extractImageDataUrl (request w)) as [t [[url'|]|e]];
    simpl in *; try done.
  injection Hx as ->. rewrite Hv. cbv zeta. rewrite He.
  destruct (speech w _) as [tts|]; [destruct (arrayBuffer tts)|];
    simpl; by rewrite speech_inputs_app, Hs.
Qed.

Lemma cut_surrogate_pair_gives_500_witness :
  let w := {| protect := Returned allow; request := sample_request;
              vision := fun _ => Returned split_pair_reply;
              speech := fun _ =>
                Returned {| arrayBuffer := Returned [73; 68; 51] |} |} in
  is_lead 55357 = true
  /\ snd (POST w) = Returned internal_error
  /\ speech_inputs (fst (POST w)) = [describe (rawContent split_pair_reply)].
Proof.
  intros w. split; [reflexivity|].
  destruct (cut_surrogate_pair_gives_500 w allow
              (lit "data:image/png;base64,iVBORw==") split_pair_reply
              (repeat 97 799) 55357 eq_refl eq_refl eq_refl eq_refl)
    as (_ & _ & H500 & Hsp); [by vm_compute | reflexivity |].
  split; [exact H500 | exact Hsp].
Defined.

End RouteRuns.

(** ** The description text *)
Section DescriptionFacts.
Import Route.

#[local] Arguments lit : simpl never.

Lemma trimStart_clean s c rest :
  s = c :: rest -> is_whitespace c = false -> trimStart s = s.
Proof. intros -> Hc. simpl. by rewrite Hc. Qed.

Lemma trim_clean s c rest front c' :
  s = c :: rest -> is_whitespace c = false ->
  s = front ++ [c'] -> is_whitespace c' = false ->
  trim s = s.
Proof.
  intros Hs Hc Hs' Hc'. unfold trim, trimEnd.
  rewrite (trimStart_clean s c rest Hs Hc).
  rewrite (trimStart_clean (rev s) c' (rev front)); [apply rev_involutive| |done].
  by rewrite Hs', rev_app_distr.
Qed.

Lemma join_whitespace xs :
  Forall (Forall (fun c => is_whitespace c = true)) xs ->
  Forall (fun c => is_whitespace c = true) (join (lit " ") xs).
Proof.
  induction 1 as [|x xs Hx Hxs IH]; [constructor|].
  destruct xs as [|y rest]; [done|]. rewrite join_cons.
  apply Forall_app. split; [done|]. apply Forall_app. split; [|done].
  by repeat constructor.
Qed.

(** A reply without text gives the fallback: no choice at all, a first
    choice without message or with null content, or typed parts of which
    none carries more than whitespace. *)
Theorem reply_without_text_gives_fallback :
  (forall r, choices r = [] -> describe (rawContent r) = fallback)
  /\ (forall r c rest, choices r = c :: rest ->
        message c = None \/ message c = Some ContentNone ->
        describe (rawContent r) = fallback)
  /\ (forall parts,
        Forall (fun p => forall t, part_text p = Some t ->
                  Forall (fun c => is_whitespace c = true) t) parts ->
        describe (ContentParts parts) = fallback).
Proof.
  split; [|split].
  - intros r Hr. unfold rawContent. by rewrite Hr.
  - intros r c rest Hr [Hm | Hm]; unfold rawContent; by rewrite Hr, Hm.
  - intros parts H. apply describe_fallback. simpl.
    apply join_whitespace, Forall_map.
    eapply Forall_impl; [exact H|]. intros p Hp.
    destruct (part_text p) as [t|] eqn:Ht; simpl; [by apply Hp | constructor].
Qed.

Lemma reply_without_text_gives_fallback_witness :
  let parts := [refusal_part; text_part (lit "  "); refusal_part] in
  Forall (fun p => forall t, part_text p = Some t ->
            Forall (fun c => is_whitespace c = true) t) parts
  /\ describe (ContentParts parts) = fallback.
Proof.
  intros parts.
  assert (Forall (fun p => forall t, part_text p = Some t ->
            Forall (fun c => is_whitespace c = true) t) parts) as H.
  { repeat constructor; intros t [= <-]; by repeat constructor. }
  split; [exact H|].
  apply (proj2 (proj2 reply_without_text_gives_fallback) parts H).
Defined.

(** A plain reply that is not empty, neither starts nor ends with
    whitespace and has at most 800 code units is the description,
    unchanged. *)
Theorem clean_reply_unchanged (s : jsstring) c rest front c' :
  s = c :: rest -> is_whitespace c = false ->
  s = front ++ [c'] -> is_whitespace c' = false ->
  (length s <= 800)%nat ->
  describe (ContentString s) = s.
Proof.
  intros Hs Hc Hs' Hc' Hlen. rewrite describe_unfold.
  change (normalize (ContentString s)) with s.
  rewrite (trim_clean s c rest front c' Hs Hc Hs' Hc').
  unfold slice0. rewrite take_ge by lia.
  case_decide as He; [|done]. by rewrite Hs in He.
Qed.

Lemma clean_reply_unchanged_witness :
  describe (ContentString (lit "A dog on a beach.")) = lit "A dog on a beach.".
Proof.
  apply (clean_reply_unchanged (lit "A dog on a beach.") 65
           (lit " dog on a beach.") (lit "A dog on a beach") 46);
    try reflexivity.
  vm_compute. lia.
Defined.

(** A description never starts with whitespace, and it does not end with
    whitespace when the trimmed reply has at most 800 code units. *)
Theorem description_edges (raw : Content) :
  (forall c rest, describe raw = c :: rest -> is_whitespace c = false)
  /\ ((length (trim (normalize raw)) <= 800)%nat ->
      forall front c, describe raw = front ++ [c] -> is_whitespace c = false).
Proof.
  rewrite describe_unfold. unfold slice0. split.
  - intros c rest. case_decide as He.
    + by intros [= <- _].
    + destruct (trim (normalize raw)) as [|c0 t] eqn:Ht; [done|].
      intros [= <- _]. by apply trim_no_leading in Ht.
  - intros Hlen front c. rewrite take_ge by lia. case_decide as He.
    + intros H. apply (f_equal (@rev Z)) in H. rewrite rev_app_distr in H.
      by injection H as <- _.
    + by apply trim_no_trailing.
Qed.

Lemma description_edges_witness :
  (length (trim (normalize (ContentString (lit "  A dog. ")))) <= 800)%nat
  /\ describe (ContentString (lit "  A dog. ")) = lit "A dog" ++ [46]
  /\ is_whitespace 46 = false.
Proof.
  assert (length (trim (normalize (ContentString (lit "  A dog. "))))
          <= 800)%nat as Hlen by (vm_compute; lia).
  split; [exact Hlen|]. split; [reflexivity|].
  apply (proj2 (description_edges (ContentString (lit "  A dog. "))) Hlen
           (lit "A dog") 46).
  reflexivity.
Defined.

End DescriptionFacts.

(** ** More on percent-encoding *)
Section EncodingFacts.
Import Route.

#[local] Arguments lit : simpl never.

(** A string of letters, digits and the marks [- _ . ! ~ * ' ( )] is its
    own encoding. *)
Theorem encode_unreserved_unchanged (s : jsstring) :
  Forall (fun c => unescaped c = true) s -> encodeURIComponent s = Some s.
Proof.
  induction 1 as [|c s Hc _ IH]; simpl; [done|]. by rewrite Hc, IH.
Qed.

Lemma encode_unreserved_unchanged_witness :
  encodeURIComponent (lit "description.mp3") = Some (lit "description.mp3").
Proof.
  apply encode_unreserved_unchanged. repeat constructor.
Defined.

(** A string without a percent sign decodes to itself. *)
Theorem decode_plain_unchanged (s : jsstring) :
  Forall (fun c => c <> 37) s -> decodeURIComponent s = Some s.
Proof.
  unfold decodeURIComponent. induction 1 as [|c s Hc _ IH]; [done|].
  rewrite unescape_literal by done.
  destruct (unescape s) as [ts|]; simpl in *; [|done]. by rewrite IH.
Qed.

Lemma decode_plain_unchanged_witness :
  decodeURIComponent (lit "A dog.") = Some (lit "A dog.").
Proof.
  apply decode_plain_unchanged. repeat constructor; done.
Defined.

Lemma hex_value_percent : hex_value 37 = None.
Proof. reflexivity. Qed.

Lemma unescape_dangling_bounded (n : nat) :
  forall s tail, (length s <= n)%nat ->
    tail = [37] \/ (exists c, tail = [37; c]) ->
    unescape (s ++ tail) = None.
Proof.
  induction n as [|n IH]; intros s tail Hlen Htail.
  { destruct s; [|simpl in Hlen; lia].
    destruct Htail as [-> | [c ->]]; reflexivity. }
  destruct s as [|x s].
  { destruct Htail as [-> | [c ->]]; reflexivity. }
  simpl in Hlen. change ((x :: s) ++ tail) with (x :: (s ++ tail)).
  cbn [unescape]. destruct (x =? 37).
  - destruct s as [|a [|b s']].
    + destruct Htail as [-> | [c ->]]; [reflexivity|].
      simpl. by destruct (hex_value c).
    + destruct Htail as [-> | [c ->]]; cbn [app];
        rewrite hex_value_percent; by destruct (hex_value a).
    + change ((a :: b :: s') ++ tail) with (a :: b :: (s' ++ tail)).
      cbv beta iota. destruct (hex_value a); [|done]. destruct (hex_value b); [|done].
      rewrite (IH s' tail); [done | simpl in Hlen; lia | done].
  - rewrite (IH s tail); [done | lia | done].
Qed.

(** A string that ends in a percent sign, or in a percent sign and one
    more character, does not decode: [decodeURIComponent] throws. *)
Theorem decode_dangling_percent (s : jsstring) :
  decodeURIComponent (s ++ [37]) = None
  /\ forall c, decodeURIComponent (s ++ [37; c]) = None.
Proof.
  unfold decodeURIComponent. split.
  - rewrite (unescape_dangling_bounded (length s) s [37]); auto.
  - intros c. rewrite (unescape_dangling_bounded (length s) s [37; c]); eauto.
Qed.

Lemma escape_octets_length bs :
  length (escape_octets bs) = (3 * length bs)%nat.
Proof.
  induction bs as [|b bs IH]; [done|].
  rewrite escape_octets_cons. simpl. rewrite IH. lia.
Qed.

Lemma utf8_length cp :
  (1 <= length (utf8 cp) <= 4)%nat
  /\ (cp < 65536 -> (length (utf8 cp) <= 3)%nat).
Proof.
  unfold utf8. destruct (cp <? 128); [simpl; lia|].
  destruct (cp <? 2048); [simpl; lia|].
  destruct (Z.ltb_spec cp 65536); simpl; lia.
Qed.

Lemma encode_length_bounded (n : nat) :
  forall s h, (length s <= n)%nat -> wf s ->
    encodeURIComponent s = Some h ->
    (length s <= length h <= 9 * length s)%nat.
Proof.
  induction n as [|n IH]; intros s h Hlen Hwf Henc.
  { destruct s; [|simpl in Hlen; lia]. injection Henc as <-. simpl. lia. }
  destruct s as [|c rest]; [injection Henc as <-; simpl; lia|].
  apply Forall_cons in Hwf as [Hc Hrest]. simpl in Hlen, Henc.
  destruct (unescaped c).
  - destruct (encodeURIComponent rest) as [h'|] eqn:Hr; [|done].
    injection Henc as <-.
    destruct (IH rest h') as [? ?]; [lia|done|done|]. simpl. lia.
  - destruct (is_lead c).
    + destruct rest as [|d rest']; [done|].
      destruct (is_trail d); [|done].
      destruct (encodeURIComponent rest') as [h'|] eqn:Hr; [|done].
      injection Henc as <-. apply Forall_cons in Hrest as [_ Hrest'].
      simpl in Hlen.
      destruct (IH rest' h') as [? ?]; [lia|done|done|].
      rewrite length_app, escape_octets_length.
      pose proof (utf8_length (pair_code_point c d)) as [? _]. simpl. lia.
    + destruct (is_trail c); [done|].
      destruct (encodeURIComponent rest) as [h'|] eqn:Hr; [|done].
      injection Henc as <-.
      destruct (IH rest h') as [? ?]; [lia|done|done|].
      rewrite length_app, escape_octets_length.
      pose proof (utf8_length c) as [? H3]. unfold code_unit in Hc.
      specialize (H3 ltac:(lia)). simpl. lia.
Qed.

(** The description header of a successful response is never empty and
    at most 7200 characters long: up to nine characters for each of the at
    most 800 code units of the description. *)
Theorem description_header_length (w : World) (resp : Response) :
  replies_wf w ->
  snd (POST w) = Returned resp -> status resp = 200 ->
  exists h,
    header (lit "X-Description-Text") (headers resp) = Some h
    /\ (1 <= length h <= 9 * 800)%nat.
Proof.
  intros Hwf Hr Hs.
  destruct (POST_success w resp Hr Hs) as [url [r [h [Hv [He [_ Hh]]]]]].
  exists h. rewrite Hh. split; [reflexivity|].
  pose proof (describe_wf _ (Hwf url r Hv)) as Hd.
  pose proof (encode_length_bounded _ _ h (Nat.le_refl _) Hd He) as Hl.
  pose proof (describe_length (rawContent r)).
  pose proof (describe_nonempty (rawContent r)) as Hne.
  destruct (describe (rawContent r)); [done|]. simpl in *. lia.
Qed.

Lemma description_header_length_witness :
  let w := sample_world (Returned allow) sample_request in
  replies_wf w
  /\ exists resp, snd (POST w) = Returned resp /\ status resp = 200
  /\ exists h,
    header (lit "X-Description-Text") (headers resp) = Some h
    /\ (1 <= length h <= 9 * 800)%nat.
Proof.
  intros w. split; [apply sample_replies_wf|].
  eexists. split; [reflexivity|]. split; [reflexivity|].
  apply (description_header_length w); [apply sample_replies_wf | reflexivity..].
Defined.

End EncodingFacts.

(** ** Runs of the page *)
Section PageRuns.
Import Page.

#[local] Arguments lit : simpl never.
#[local] Arguments startsWith : simpl never.
#[local] Arguments decodeURIComponent : simpl never.

(** The upload of a valid file whose response is fine and can be read. *)
Lemma handleFileChange_ok st file fs response :
  input_files st = file :: fs -> passes_validation file = true ->
  ok response = true -> blob response = None ->
  blob_urls st = tracked st ->
  let st' := handleFileChange (inr response) st in
  let u := next_url st in
  audioUrl st' = Some u
  /\ match description_header response with
     | Some h =>
         if truthy h then
           match decodeURIComponent h with
           | Some d =>
               status st' = done /\ blob_urls st' = {[u]}
               /\ descriptionText st' = (if truthy d then Some d else None)
           | None =>
               status st' = error /\ blob_urls st' = ∅
               /\ errorMessage st' = Some generic_error
           end
         else status st' = done /\ blob_urls st' = {[u]}
              /\ descriptionText st' = None
     | None => status st' = done /\ blob_urls st' = {[u]}
               /\ descriptionText st' = None
     end.
Proof.
  intros Hf Hv Hok Hblob Hinv. destruct (revoke_tracked st Hinv) as [Hb Hr].
  unfold passes_validation in Hv. apply andb_true_iff in Hv as [Ht Hs].
  apply negb_true_iff in Hs.
  unfold handleFileChange. rewrite Hf. simpl. rewrite Ht. simpl.
  rewrite Hs.
  unfold try_upload. rewrite Hok, Hblob. simpl.
  assert (next_url (revokePreviousAudioUrl st) = next_url st) as Hn.
  { unfold revokePreviousAudioUrl. by destruct (audioObjectUrlRef st). }
  generalize dependent (revokePreviousAudioUrl st). intros st0 Hb Hr Hn.
  unfold revokePreviousAudioUrl. simpl. rewrite Hr. simpl.
  destruct (description_header response) as [h|];
    [destruct (truthy h);
       [destruct (decodeURIComponent h) as [d|]; [destruct (truthy d)|]|]|];
    simpl; rewrite ?Hb, ?Hn, ?union_empty_l_L, ?difference_diag_L; done.
Qed.

(** When the description header of a good response does not decode, the
    page ends in the error status with the new object URL revoked, but
    [audioUrl] still holds it: the audio section is rendered with a
    revoked URL. *)
Theorem undecodable_header_leaves_dead_url (st : State) (file : File)
    (fs : list File) (response : FetchResponse) (h : jsstring) :
  blob_urls st = tracked st -> passes_validation file = true ->
  ok response = true -> blob response = None ->
  description_header response = Some h -> truthy h = true ->
  decodeURIComponent h = None ->
  let st' := step (SelectFiles (file :: fs) (inr response)) st in
  status st' = error
  /\ errorMessage st' = Some generic_error
  /\ shows_audio st' = true
  /\ exists u, audioUrl st' = Some u /\ u ∉ blob_urls st'.
Proof.
  intros Hinv Hv Hok Hblob Hh Ht Hd st'. subst st'. simpl.
  pose proof (handleFileChange_ok (set_input_files (file :: fs) st) file fs
                response eq_refl Hv Hok Hblob Hinv) as [Ha H].
  rewrite Hh, Ht, Hd in H. destruct H as (Hs & Hb & He).
  split; [done|]. split; [done|]. unfold shows_audio. rewrite Ha.
  split; [done|]. eexists. split; [done|]. rewrite Hb. set_solver.
Qed.

Lemma undecodable_header_leaves_dead_url_witness :
  let st' := step (SelectFiles [sample_file] bad_header_fetch) initial in
  decodeURIComponent (lit "A%20dog%") = None
  /\ status st' = error
  /\ shows_audio st' = true
  /\ exists u, audioUrl st' = Some u /\ u ∉ blob_urls st'.
Proof.
  intros st'. split; [reflexivity|].
  destruct (undecodable_header_leaves_dead_url initial sample_file []
              {| ok := true; blob := None;
                 description_header := Some (lit "A%20dog%") |}
              (lit "A%20dog%") eq_refl eq_refl eq_refl eq_refl eq_refl
              eq_refl eq_refl) as (Hs & _ & Ha & Hu).
  split; [exact Hs|]. split; [exact Ha | exact Hu].
Defined.

(** The page's validation and the route's checks agree: the page accepts a
    file exactly when the route, given the page's upload of it, extracts a
    data URL. *)
Theorem client_and_server_validation_agree (file : File) :
  passes_validation file = true <->
  exists url,
    snd (Route.extractImageDataUrl (upload_request file))
    = Route.Returned (Some url).
Proof.
  rewrite (extract_multipart (upload_request file)
             [(lit "file", Route.EntryFile file)] eq_refl eq_refl).
  unfold passes_validation, Route.formData_get. simpl.
  unfold file_type, file_size, MAX_FILE_SIZE_MB, Route.MAX_FILE_SIZE_BYTES.
  change (10 * (1024 * 1024)) with (10 * 1024 * 1024).
  rewrite Z.gtb_ltb, <- Z.leb_antisym.
  destruct (startsWith _ _ && _); split; try done.
  - intros _. by eexists.
  - by intros [url ?].
Qed.

Lemma client_and_server_validation_agree_witness :
  passes_validation sample_file = true
  /\ exists url,
    snd (Route.extractImageDataUrl (upload_request sample_file))
    = Route.Returned (Some url).
Proof.
  split; [reflexivity|].
  apply (proj1 (client_and_server_validation_agree sample_file)). reflexivity.
Defined.

Lemma POST_statuses w resp :
  snd (Route.POST w) = Route.Returned resp ->
  In (Route.status resp) Route.handler_statuses.
Proof.
  intros Hr. destruct (Route.protect w) as [d|e] eqn:Hp.
  - rewrite (POST_result w d Hp) in Hr. destruct (Route.turned_away d).
    + injection Hr as <-. unfold Route.handler_statuses.
      destruct (_ && _); [simpl; tauto|]. destruct (_ && _); simpl; tauto.
    + pose proof (pipeline_status w) as Hs. unfold Route.handler_statuses.
      destruct (snd (Route.pipeline w)) as [a|]; injection Hr as <-.
      * destruct (Hs a eq_refl) as [-> | ->]; simpl; tauto.
      * simpl. tauto.
  - unfold Route.POST, Route.call, Route.bind in Hr. by rewrite Hp in Hr.
Qed.

(** From the route to the page: when the handler answers 200 and the page
    receives that response for a valid file, the page ends in the done
    status, shows the audio, and shows as text exactly the description that
    was sent to the speech model. *)
Theorem page_shows_spoken_description (w : Route.World) (resp : Route.Response)
    (st : State) (file : File) (fs : list File) :
  Route.replies_wf w ->
  snd (Route.POST w) = Route.Returned resp -> Route.status resp = 200 ->
  blob_urls st = tracked st -> passes_validation file = true ->
  let st' := step (SelectFiles (file :: fs) (receive resp)) st in
  exists d,
    Route.speech_inputs (fst (Route.POST w)) = [d]
    /\ status st' = done
    /\ descriptionText st' = Some d
    /\ shows_description st' = true
    /\ shows_audio st' = true.
Proof.
  intros Hwf Hr Hs Hinv Hv st'. subst st'.
  destruct (POST_success w resp Hr Hs) as [url [r [h [Hvis [He [Hl Hh]]]]]].
  set (d := Route.describe (Route.rawContent r)) in *.
  pose proof (describe_wf _ (Hwf url r Hvis)) as Hd. fold d in Hd.
  pose proof (encode_decode d h Hd He) as Hdec.
  pose proof (encode_length_bounded _ d h (Nat.le_refl _) Hd He) as [Hlen _].
  assert (truthy d = true) as Htd.
  { pose proof (describe_nonempty (Route.rawContent r)) as Hne. fold d in Hne.
    by destruct d. }
  assert (truthy h = true) as Hth.
  { destruct d; [done|]. destruct h; [simpl in Hlen; lia | done]. }
  exists d. split; [done|]. simpl. unfold receive. rewrite Hs, Hh.
  change (Route.header (lit "X-Description-Text") (Route.success_headers h))
    with (Some h).
  pose proof (handleFileChange_ok (set_input_files (file :: fs) st) file fs
                {| ok := (200 <=? 200) && (200 <=? 299);
                   blob := None;
                   description_header := Some h |}
                eq_refl Hv eq_refl eq_refl Hinv) as H.
  cbv zeta in H. destruct H as [Ha H]. cbn [description_header] in H.
  rewrite Hth, Hdec, Htd in H. destruct H as (Hst & _ & Hdt).
  unfold shows_description, shows_audio.
  rewrite Hst, Hdt, Ha, Htd. done.
Qed.

Lemma page_shows_spoken_description_witness :
  let w := Route.sample_world (Route.Returned Route.allow)
             (upload_request sample_file) in
  exists resp, snd (Route.POST w) = Route.Returned resp
  /\ Route.status resp = 200
  /\ let st' := step (SelectFiles [sample_file] (receive resp)) initial in
     exists d,
       Route.speech_inputs (fst (Route.POST w)) = [d]
       /\ status st' = done
       /\ descriptionText st' = Some d
       /\ shows_description st' = true
       /\ shows_audio st' = true.
Proof.
  intros w. eexists. split; [reflexivity|]. split; [reflexivity|].
  apply (page_shows_spoken_description w _ initial sample_file []);
    [apply sample_replies_wf | reflexivity..].
Defined.

End PageRuns.

(** ** Overlapping runs of the page *)
Section PageAsync.
Import Page.

#[local] Set Warnings "-clear-no-such-hyp".

#[local] Arguments lit : simpl never.
#[local] Arguments startsWith : simpl never.
#[local] Arguments decodeURIComponent : simpl never.

(** The handler run to its end is its three blocks in a row. *)
Lemma handleFileChange_blocks fetch st :
  handleFileChange fetch st =
  match start_upload st with
  | (st1, false) => st1
  | (st1, true) =>
      match fetch_settled fetch st1 with
      | (st2, None) => st2
      | (st2, Some response) => body_settled response st2
      end
  end.
Proof.
  unfold handleFileChange, start_upload.
  destruct (head (input_files st)) as [file|]; [|done].
  destruct (negb (startsWith _ _)); [done|].
  destruct (_ >? _); [done|].
  unfold try_upload, fetch_settled, body_settled.
  destruct fetch as [e|response]; [done|].
  destruct (negb (ok response)); [done|].
  destruct (blob response); [done|]. simpl.
  destruct (description_header response) as [h|]; [|done].
  destruct (negb (truthy h)); [done|].
  by destruct (decodeURIComponent h).
Qed.

(** A sequential step is the overlapping run in which the upload settles
    at once. *)
Lemma step_is_async fs fetch st :
  step (SelectFiles fs fetch) st
  = page (async_run [Select fs; FetchSettles 0 fetch; BodySettles 0]
            {| page := st; pending := [] |}).
Proof.
  simpl. rewrite handleFileChange_blocks.
  destruct (start_upload _) as [st1 [|]]; simpl; [|done].
  destruct (fetch_settled fetch st1) as [st2 [response|]]; simpl; done.
Qed.

Ltac crunch :=
  unfold keeps, steady, tracked, catch_finally, revokePreviousAudioUrl,
    createObjectURL in *;
  simpl in *;
  repeat match goal with
  | H : audioObjectUrlRef _ = _ |- _ => rewrite H in *; simpl in *
  | H : blob_urls _ = _ |- _ => rewrite H in *; simpl in *
  end;
  repeat split; intros; simplify_eq; try done; try (by eexists);
  try lia; try set_solver.

Lemma steady_cases st :
  steady st ->
  (audioObjectUrlRef st = None /\ blob_urls st = ∅)
  \/ (exists v, audioObjectUrlRef st = Some v /\ blob_urls st = {[v]}
                /\ (v < next_url st)%positive).
Proof.
  intros (Ht & Hf & _). unfold tracked in Ht.
  destruct (audioObjectUrlRef st) as [v|] eqn:Hr; [right|by left].
  exists v. split; [done|]. split; [done|]. by apply Hf.
Qed.

Lemma catch_finally_keeps st : steady st -> keeps st (catch_finally st).
Proof.
  intros Hst. destruct (steady_cases st Hst) as [[Hr Hb] | (v & Hr & Hb & Hv)];
    clear Hst; crunch.
Qed.

Lemma start_upload_keeps st fs :
  steady st -> keeps st (start_upload (set_input_files fs st)).1.
Proof.
  intros Hst. destruct (steady_cases st Hst) as [[Hr Hb] | (v & Hr & Hb & Hv)];
    clear Hst; unfold start_upload; simpl;
    (destruct (head fs) as [file|]; [|crunch]);
    (destruct (negb (startsWith _ _)); [crunch|]);
    (destruct (_ >? _); crunch).
Qed.

Lemma fetch_settled_keeps fetch st :
  steady st -> keeps st (fetch_settled fetch st).1.
Proof.
  intros Hst. unfold fetch_settled.
  destruct fetch as [e|response]; [by apply catch_finally_keeps|].
  destruct (negb (ok response)); [by apply catch_finally_keeps|].
  simpl. destruct (steady_cases st Hst) as [[Hr Hb] | (v & Hr & Hb & Hv)];
    clear Hst; crunch.
Qed.

Lemma swap_handle (v n : ObjectURL) :
  v <> n -> ({[v]} ∪ {[n]}) ∖ {[v]} = ({[n]} : gset ObjectURL).
Proof. set_solver. Qed.

Lemma body_settled_keeps response st :
  steady st -> keeps st (body_settled response st).
Proof.
  intros Hst. unfold body_settled.
  destruct (blob response); [by apply catch_finally_keeps|].
  destruct (steady_cases st Hst) as [[Hr Hb] | (v & Hr & Hb & Hv)];
    clear Hst; unfold createObjectURL, revokePreviousAudioUrl; simpl;
    rewrite Hr; simpl;
    (destruct (description_header response) as [h|];
       [destruct (negb (truthy h));
          [|destruct (decodeURIComponent h) as [d|]; [destruct (truthy d)|]]|]);
    crunch;
    pose proof (swap_handle v (next_url st) ltac:(lia)) as Hswap;
    rewrite ?Hswap; try done; by eexists.
Qed.

Lemma resetState_keeps st : steady st -> keeps st (resetState st).
Proof.
  intros Hst. destruct (steady_cases st Hst) as [[Hr Hb] | (v & Hr & Hb & Hv)];
    clear Hst; unfold resetState; crunch.
Qed.

Lemma async_step_keeps ev a :
  steady (page a) -> keeps (page a) (page (async_step ev a)).
Proof.
  intros Hst.
  assert (keeps (page a) (page a)) as Hsame.
  { split; [done|]. split; [lia | auto]. }
  destruct ev as [fs| |i fetch|i]; simpl.
  - pose proof (start_upload_keeps (page a) fs Hst) as H.
    by destruct (start_upload _) as [st1 go].
  - by apply resetState_keeps.
  - destruct (pending a !! i) as [[|response]|]; try done.
    pose proof (fetch_settled_keeps fetch (page a) Hst) as H.
    by destruct (fetch_settled _ _) as [st1 next].
  - destruct (pending a !! i) as [[|response]|]; try done.
    by apply body_settled_keeps.
Qed.

Lemma async_run_app evs1 evs2 a :
  async_run (evs1 ++ evs2) a = async_run evs2 (async_run evs1 a).
Proof. apply fold_left_app. Qed.

Lemma async_run_steady_from events a :
  steady (page a) -> steady (page (async_run events a)).
Proof.
  revert a. induction events as [|ev events IH]; intros a Hst; [done|].
  simpl. apply IH. by apply async_step_keeps.
Qed.

Lemma async_initial_steady : steady (page async_initial).
Proof. unfold async_initial. crunch. Qed.

Lemma async_run_steady events : steady (page (async_run events async_initial)).
Proof. apply async_run_steady_from, async_initial_steady. Qed.


(** Whatever overlaps, whenever the page is in the error status no object
    URL is live and the page holds no reference to one. *)
Theorem error_status_holds_no_handle (events : list Event) :
  status (page (async_run events async_initial)) = error ->
  blob_urls (page (async_run events async_initial)) = ∅
  /\ audioObjectUrlRef (page (async_run events async_initial)) = None.
Proof.
  destruct (async_run_steady events) as (_ & _ & He & _).
  intros H. by destruct (He H) as (_ & ? & ?).
Qed.

Lemma error_status_holds_no_handle_witness :
  status (page (async_run overlapping_uploads async_initial)) = error
  /\ blob_urls (page (async_run overlapping_uploads async_initial)) = ∅.
Proof.
  split; [reflexivity|].
  apply (error_status_holds_no_handle overlapping_uploads). reflexivity.
Defined.

(** Whatever overlaps, in the done status the audio section shows an
    object URL that is live and is the only live one, and in the idle
    status neither the audio nor the description section is shown. *)
Theorem done_status_shows_live_audio (events : list Event) :
  (status (page (async_run events async_initial)) = done ->
   exists u, audioUrl (page (async_run events async_initial)) = Some u
             /\ blob_urls (page (async_run events async_initial)) = {[u]}
             /\ shows_audio (page (async_run events async_initial)) = true)
  /\ (status (page (async_run events async_initial)) = idle ->
      shows_audio (page (async_run events async_initial)) = false
      /\ shows_description (page (async_run events async_initial)) = false).
Proof.
  destruct (async_run_steady events) as (_ & _ & _ & Hi & Hd). split.
  - intros H. destruct (Hd H) as (u & Hu & _ & Hb). exists u.
    unfold shows_audio. by rewrite Hu.
  - intros H. destruct (Hi H) as [Ha Hdt].
    unfold shows_audio, shows_description. by rewrite Ha, Hdt.
Qed.

Lemma done_status_shows_live_audio_witness :
  let events := [Select [sample_file]; Select [sample_file];
                 FetchSettles 0 ok_fetch; FetchSettles 1 ok_fetch;
                 BodySettles 1; BodySettles 0] in
  status (page (async_run events async_initial)) = done
  /\ exists u, audioUrl (page (async_run events async_initial)) = Some u
               /\ blob_urls (page (async_run events async_initial)) = {[u]}
               /\ shows_audio (page (async_run events async_initial)) = true.
Proof.
  intros events. split; [reflexivity|].
  apply (proj1 (done_status_shows_live_audio events)). reflexivity.
Defined.

(** Whatever overlaps, at most one object URL is live whenever no handler
    is running. *)
Theorem at_most_one_live_interleaved (events : list Event) :
  (size (blob_urls (page (async_run events async_initial))) <= 1)%nat.
Proof.
  destruct (async_run_steady events) as (Ht & _). rewrite Ht. unfold tracked.
  destruct (audioObjectUrlRef _); [rewrite size_singleton; lia|].
  rewrite size_empty. lia.
Qed.

Lemma start_upload_empties st fs :
  steady st -> blob_urls (start_upload (set_input_files fs st)).1 = ∅.
Proof.
  intros Hst. destruct (steady_cases st Hst) as [[Hr Hb] | (v & Hr & Hb & Hv)];
    clear Hst; unfold start_upload; simpl;
    (destruct (head fs) as [file|]; [|crunch]);
    (destruct (negb (startsWith _ _)); [crunch|]);
    (destruct (_ >? _); crunch).
Qed.

Lemma keeps_gone st st' (u : ObjectURL) :
  keeps st st' -> u ∉ blob_urls st -> (u < next_url st)%positive ->
  (u ∉ blob_urls st') /\ (u < next_url st')%positive.
Proof.
  intros (_ & Hn & Hs) Hu Hlt. split; [|lia].
  intros Hin. destruct (Hs u Hin) as [? | ->]; [done | lia].
Qed.

Lemma async_run_gone events a (u : ObjectURL) :
  steady (page a) ->
  u ∉ blob_urls (page a) -> (u < next_url (page a))%positive ->
  u ∉ blob_urls (page (async_run events a)).
Proof.
  revert a. induction events as [|ev events IH]; intros a Hst Hu Hlt; [done|].
  simpl. pose proof (async_step_keeps ev a Hst) as Hk.
  destruct (keeps_gone _ _ u Hk Hu Hlt) as [Hu' Hlt'].
  apply IH; [by destruct Hk | done | done].
Qed.

(** Whatever overlaps, a file selection releases the object URL that was
    live before it, for good: that URL is not live after the selection nor
    after anything that happens later. *)
Theorem selection_releases_previous_handle (before after : list Event)
    (fs : list File) (u : ObjectURL) :
  u ∈ blob_urls (page (async_run before async_initial)) ->
  u ∉ blob_urls (page (async_run (before ++ Select fs :: after) async_initial)).
Proof.
  rewrite async_run_app.
  pose proof (async_run_steady before) as Hst.
  generalize dependent (async_run before async_initial). intros a Hst Hu.
  change (async_run (Select fs :: after) a)
    with (async_run after (async_step (Select fs) a)).
  pose proof (async_step_keeps (Select fs) a Hst) as Hk.
  assert (u < next_url (page a))%positive as Hlt.
  { destruct (steady_cases _ Hst) as [[_ Hb] | (v & _ & Hb & Hv)];
      rewrite Hb in Hu; [set_solver|].
    apply elem_of_singleton in Hu. by subst. }
  apply async_run_gone; [by destruct Hk| |destruct Hk as (_ & ? & _); lia].
  simpl. pose proof (start_upload_empties (page a) fs Hst) as He.
  destruct (start_upload _) as [st1 go]. simpl in *. rewrite He. set_solver.
Qed.

Lemma selection_releases_previous_handle_witness :
  let before := [Select [sample_file]; FetchSettles 0 ok_fetch;
                 BodySettles 0; PressReset] in
  let after := [FetchSettles 0 ok_fetch; BodySettles 0] in
  (1%positive) ∈ blob_urls (page (async_run before async_initial))
  /\ (1%positive) ∉ blob_urls
       (page (async_run (before ++ Select [sample_file] :: after)
                async_initial)).
Proof.
  intros before after.
  assert ((1%positive) ∈ blob_urls (page (async_run before async_initial)))
    as H.
  { assert (blob_urls (page (async_run before async_initial)) = {[1%positive]})
      as -> by (destruct (async_run_steady before) as (-> & _); reflexivity).
    by apply elem_of_singleton. }
  split; [exact H|].
  apply (selection_releases_previous_handle before after [sample_file] _ H).
Defined.

(** An upload that fails, because [fetch] throws, because the status is
    not in the 200 range or because the body cannot be read, ends its
    handler in the error status with the one generic message in the live
    region, no object URL live and the input cleared. That is what every
    answer of the route other than 200 leads to: the route's own message
    does not reach the page. *)
Theorem failed_upload_ends_in_generic_error (st : State) :
  steady st ->
  (forall fetch,
     match fetch with
     | inl _ => True
     | inr response => ok response = false
     end ->
     (fetch_settled fetch st).2 = None
     /\ status (fetch_settled fetch st).1 = error
     /\ live_message (fetch_settled fetch st).1 = Some generic_error
     /\ blob_urls (fetch_settled fetch st).1 = ∅
     /\ input_files (fetch_settled fetch st).1 = [])
  /\ (forall response,
        is_Some (blob response) ->
        status (body_settled response st) = error
        /\ live_message (body_settled response st) = Some generic_error
        /\ blob_urls (body_settled response st) = ∅
        /\ input_files (body_settled response st) = [])
  /\ (forall w resp,
        snd (Route.POST w) = Route.Returned resp -> Route.status resp <> 200 ->
        (fetch_settled (receive resp) st).2 = None
        /\ status (fetch_settled (receive resp) st).1 = error
        /\ live_message (fetch_settled (receive resp) st).1 = Some generic_error).
Proof.
  intros Hst.
  assert (status (catch_finally st) = error
          /\ live_message (catch_finally st) = Some generic_error
          /\ blob_urls (catch_finally st) = ∅
          /\ input_files (catch_finally st) = []) as Hcatch.
  { destruct (catch_finally_keeps st Hst) as ((_ & _ & He & _) & _).
    assert (status (catch_finally st) = error) as Hs by reflexivity.
    destruct (He Hs) as (_ & Hb & _). by repeat split. }
  assert (forall fetch,
     match fetch with
     | inl _ => True
     | inr response => ok response = false
     end ->
     (fetch_settled fetch st).2 = None
     /\ status (fetch_settled fetch st).1 = error
     /\ live_message (fetch_settled fetch st).1 = Some generic_error
     /\ blob_urls (fetch_settled fetch st).1 = ∅
     /\ input_files (fetch_settled fetch st).1 = []) as Hfetch.
  { intros fetch Hfail. unfold fetch_settled.
    destruct fetch as [e|response]; [by split|]. rewrite Hfail. by split. }
  split; [exact Hfetch|]. split.
  - intros response [e He]. unfold body_settled. by rewrite He.
  - intros w resp Hr Hne.
    destruct (Hfetch (receive resp)) as (? & ? & ? & _); [|done].
    pose proof (POST_statuses w resp Hr) as Hin.
    unfold Route.handler_statuses in Hin. simpl in Hin. simpl.
    destruct Hin as [H|[H|[H|[H|[H|[]]]]]]; rewrite <- H in *; done.
Qed.

Lemma failed_upload_ends_in_generic_error_witness :
  let w := Route.sample_world (Route.Returned (Route.deny Arcjet.RATE_LIMIT))
             (upload_request sample_file) in
  let st := page (async_run [Select [sample_file]] async_initial) in
  steady st
  /\ exists resp, snd (Route.POST w) = Route.Returned resp
  /\ Route.status resp <> 200
  /\ (fetch_settled (receive resp) st).2 = None
  /\ status (fetch_settled (receive resp) st).1 = error
  /\ live_message (fetch_settled (receive resp) st).1 = Some generic_error.
Proof.
  intros w st.
  assert (steady st) as Hst by apply async_run_steady.
  split; [exact Hst|].
  eexists. split; [reflexivity|]. split; [discriminate|].
  apply (proj2 (proj2 (failed_upload_ends_in_generic_error st Hst)) w);
    [reflexivity | discriminate].
Defined.

(** A failure leaves what an overlapping upload put on the page: the
    [catch] block revokes the live object URL but clears neither
    [audioUrl] nor [descriptionText], so when an upload fails after another
    one has succeeded, the page is in the error status with that one's
    description still shown and its audio section on a revoked URL. *)
Theorem failure_keeps_stale_output (st : State) (fetch : Fetch) :
  steady st ->
  match fetch with
  | inl _ => True
  | inr response => ok response = false
  end ->
  status (fetch_settled fetch st).1 = error
  /\ audioUrl (fetch_settled fetch st).1 = audioUrl st
  /\ descriptionText (fetch_settled fetch st).1 = descriptionText st
  /\ shows_audio (fetch_settled fetch st).1 = shows_audio st
  /\ shows_description (fetch_settled fetch st).1 = shows_description st
  /\ blob_urls (fetch_settled fetch st).1 = ∅.
Proof.
  intros Hst Hfail.
  assert ((fetch_settled fetch st).1 = catch_finally st) as ->.
  { unfold fetch_settled. destruct fetch as [e|response]; [done|].
    by rewrite Hfail. }
  destruct (catch_finally_keeps st Hst) as ((_ & _ & He & _) & _).
  destruct (He eq_refl) as (_ & Hb & _).
  unfold shows_audio, shows_description, catch_finally, revokePreviousAudioUrl
    in *.
  destruct (audioObjectUrlRef st); simpl in *; by repeat split.
Qed.

Lemma failure_keeps_stale_output_witness :
  let st := page (async_run [Select [sample_file]; Select [sample_file];
                             FetchSettles 1 ok_fetch; BodySettles 1]
                    async_initial) in
  let st' := (fetch_settled (inl NetworkError) st).1 in
  steady st
  /\ status st = done /\ shows_audio st = true /\ shows_description st = true
  /\ status st' = error /\ shows_audio st' = true
  /\ shows_description st' = true /\ blob_urls st' = ∅.
Proof.
  intros st st'.
  assert (steady st) as Hst by apply async_run_steady.
  split; [exact Hst|]. do 3 (split; [reflexivity|]).
  destruct (failure_keeps_stale_output st (inl NetworkError) Hst I)
    as (Hs & _ & _ & Ha & Hd & Hb).
  subst st'. split; [exact Hs|]. split; [by rewrite Ha|].
  split; [by rewrite Hd | exact Hb].
Defined.

End PageAsync.
